(** * AI-brag-book: the function dispatch engine and the session tracker

    A shallow embedding of [smart_caller.py] (function registry, parameter
    builder, dispatcher), of [state_tracker.py] (the state, the history
    and the JSON round trip of a session) and of the adapter of
    [llm_adapters.py] that calls the dispatcher, with the properties of
    the specification stated over it and, after them, further properties
    of the code.

    Conventions.
    - A Python [dict] is an association list in insertion order; assigning
      to a key that is present keeps the key's position.
    - [time.time()] is an explicit clock: a function from the number of the
      reading to the time read, and a counter of the readings made so far.
      Times and durations are integers, in ticks of one microsecond.
    - Python values are the type [value].  A [str] is a [string] (code
      points below 256).  A [float] is kept as an exact decimal
      [m / 10^k] with [k >= 1]; rounding, infinities and NaN are left out.
    - [pydantic] and [json] are libraries the program calls.  [Pydantic]
      and [Json] below describe the part of their behaviour the program
      relies on.
    - The API of the language model is outside the program: what it
      answers to each request is a parameter of the adapter. *)

From Stdlib Require Import List ZArith NArith Bool Ascii String Lia Arith.
From Stdlib Require Import Sorting.Sorted Sorting.Permutation.
Import ListNotations.

#[local] Set Warnings "-register-all".

Local Open Scope string_scope.
Local Open Scope Z_scope.

(** ** Python values *)

(** The float [f_mant / 10^(S f_frac_pred)]. *)
Record pyfloat : Type := PyFloat { f_mant : Z; f_frac_pred : nat }.

Inductive value : Type :=
| VNone
| VBool (b : bool)
| VInt (z : Z)
| VFloat (f : pyfloat)
| VStr (s : string)
| VList (l : list value)
| VDict (d : list (string * value)).

(** ** Dictionaries *)

Definition dict (V : Type) : Type := list (string * V).

Section Dict.
Context {V : Type}.

(** [d.get(k)] *)
Fixpoint dict_get (k : string) (d : dict V) : option V :=
  match d with
  | [] => None
  | (k', v) :: rest => if String.eqb k k' then Some v else dict_get k rest
  end.

(** [d.get(k, default)] *)
Definition dict_get_default (k : string) (d : dict V) (default : V) : V :=
  match dict_get k d with Some v => v | None => default end.

(** [k in d] *)
Definition dict_mem (k : string) (d : dict V) : bool :=
  match dict_get k d with Some _ => true | None => false end.

(** [d[k] = v] *)
Fixpoint dict_set (k : string) (v : V) (d : dict V) : dict V :=
  match d with
  | [] => [(k, v)]
  | (k', v') :: rest =>
      if String.eqb k k' then (k', v) :: rest else (k', v') :: dict_set k v rest
  end.

Definition dict_keys (d : dict V) : list string := map fst d.
Definition dict_values (d : dict V) : list V := map snd d.
End Dict.

(** [x in l] for a list of strings *)
Definition str_in (x : string) (l : list string) : bool :=
  existsb (String.eqb x) l.

(** ** Exceptions *)

(** [SystemExiting] stands for the classes that derive from
    [BaseException] and not from [Exception] ([SystemExit],
    [KeyboardInterrupt], [GeneratorExit]). *)
Inductive exn_class : Type :=
| ValueError | TypeError | AttributeError | KeyError | JSONDecodeError
| ValidationError | OtherException | SystemExiting.

Record exn : Type := Exn { exn_cls : exn_class; exn_str : string }.

(** [isinstance(e, Exception)] *)
Definition is_Exception (e : exn) : bool :=
  match exn_cls e with SystemExiting => false | _ => true end.

Inductive result (A : Type) : Type :=
| Ok (a : A)
| Raise (e : exn).
Arguments Ok {A} a.
Arguments Raise {A} e.

Definition bind {A B : Type} (r : result A) (k : A -> result B) : result B :=
  match r with Ok a => k a | Raise e => Raise e end.

Notation "x <- r ;; k" := (bind r (fun x => k))
  (at level 61, r at next level, right associativity).

(** ** The [json] library *)

Module Json.

(** *** Characters *)

(** The double quote, code point 34. *)
Definition quote : ascii :=
  Ascii false true false false false true false false.

(** The digit of a number below 10, and back: the digits are the code
    points from 48 on. *)
Definition digit_of (n : N) : ascii := ascii_of_N (48 + n).

Definition char_digit (c : ascii) : option N :=
  let n := N_of_ascii c in
  if ((48 <=? n) && (n <=? 57))%N then Some (n - 48)%N else None.

(** The lower-case hexadecimal digit of a number below 16; the letters
    are the code points from 97 on, or from 65 on in upper case. *)
Definition hex_of (n : N) : ascii :=
  if (n <? 10)%N then digit_of n else ascii_of_N (87 + n).

Definition char_hex (c : ascii) : option N :=
  let n := N_of_ascii c in
  if ((97 <=? n) && (n <=? 102))%N then Some (n - 87)%N
  else if ((65 <=? n) && (n <=? 70))%N then Some (n - 55)%N
  else char_digit c.

Definition is_ws (c : ascii) : bool :=
  match c with
  | " " | "009" | "010" | "013" => true
  | _ => false
  end%char.

(** *** [json.dumps]: numbers *)

(** The [k] lowest decimal digits of [n], most significant first, in
    front of [rest]. *)
Fixpoint fixed_digits (k : nat) (n : N) (rest : string) : string :=
  match k with
  | O => rest
  | S k' => fixed_digits k' (n / 10) (String (digit_of (n mod 10)) rest)
  end.

(** The number of decimal digits of [n] (1 for 0). *)
Fixpoint ndigits (fuel : nat) (n : N) : nat :=
  match fuel with
  | O => 1
  | S fuel' => if (n <? 10)%N then 1%nat else S (ndigits fuel' (n / 10))
  end.

Definition num_digits (n : N) : nat := ndigits (N.to_nat (N.size n)) n.

Definition print_N (n : N) (rest : string) : string :=
  fixed_digits (num_digits n) n rest.

Definition print_sign (z : Z) (rest : string) : string :=
  if z <? 0 then String "-" rest else rest.

(** [int.__repr__] *)
Definition print_int (z : Z) (rest : string) : string :=
  print_sign z (print_N (Z.abs_N z) rest).

(** [float.__repr__], always in positional notation *)
Definition print_float (f : pyfloat) (rest : string) : string :=
  let k := S (f_frac_pred f) in
  let a := Z.abs_N (f_mant f) in
  let p := (10 ^ N.of_nat k)%N in
  print_sign (f_mant f)
    (print_N (a / p) (String "." (fixed_digits k (a mod p) rest))).

(** *** [json.dumps]: strings, with [ensure_ascii=True] *)

Definition escape_char (c : ascii) (rest : string) : string :=
  if Ascii.eqb c quote then String "\" (String quote rest)
  else
    match c with
    | "\"%char => String "\" (String "\" rest)
    | "010"%char => String "\" (String "n" rest)
    | "013"%char => String "\" (String "r" rest)
    | "009"%char => String "\" (String "t" rest)
    | "008"%char => String "\" (String "b" rest)
    | "012"%char => String "\" (String "f" rest)
    | _ =>
        let n := N_of_ascii c in
        if ((32 <=? n) && (n <=? 126))%N then String c rest
        else String "\" (String "u" (String "0" (String "0"
               (String (hex_of (n / 16)) (String (hex_of (n mod 16)) rest)))))
    end.

Fixpoint escape (s : string) (rest : string) : string :=
  match s with
  | EmptyString => rest
  | String c s' => escape_char c (escape s' rest)
  end.

Definition print_string (s : string) (rest : string) : string :=
  String quote (escape s (String quote rest)).

(** *** [json.dumps]: values, with the default separators *)

Fixpoint print_value (v : value) (rest : string) {struct v} : string :=
  match v with
  | VNone => "null" ++ rest
  | VBool true => "true" ++ rest
  | VBool false => "false" ++ rest
  | VInt z => print_int z rest
  | VFloat f => print_float f rest
  | VStr s => print_string s rest
  | VList l =>
      String "["
        (match l with
         | [] => String "]" rest
         | v0 :: l' =>
             print_value v0
               ((fix print_tail (l : list value) : string :=
                   match l with
                   | [] => String "]" rest
                   | v1 :: l'' => ", " ++ print_value v1 (print_tail l'')
                   end) l')
         end)
  | VDict d =>
      String "{"
        (match d with
         | [] => String "}" rest
         | (k0, v0) :: d' =>
             print_string k0 (": " ++ print_value v0
               ((fix print_tail (d : list (string * value)) : string :=
                   match d with
                   | [] => String "}" rest
                   | (k1, v1) :: d'' =>
                       ", " ++ print_string k1
                                 (": " ++ print_value v1 (print_tail d''))
                   end) d'))
         end)
  end.

Definition dumps (v : value) : string := print_value v EmptyString.

(** *** [json.dumps] with [sort_keys=True] *)

Fixpoint insert_key (kv : string * value) (d : list (string * value))
  : list (string * value) :=
  match d with
  | [] => [kv]
  | kv' :: d' =>
      if String.leb (fst kv) (fst kv') then kv :: d
      else kv' :: insert_key kv d'
  end.

Fixpoint sort_keys (v : value) : value :=
  match v with
  | VList l => VList (map sort_keys l)
  | VDict d =>
      VDict (fold_right
               (fun kv acc => let '(k, v') := kv in
                              insert_key (k, sort_keys v') acc)
               [] d)
  | _ => v
  end.

Definition dumps_sorted (v : value) : string := dumps (sort_keys v).

(** *** [json.loads]: numbers *)

Fixpoint skip_ws (s : string) : string :=
  match s with
  | String c s' => if is_ws c then skip_ws s' else s
  | EmptyString => s
  end.

(** The longest prefix of digits: its value on top of [acc], the
    number of digits read on top of [cnt], and what follows. *)
Fixpoint scan_digits (s : string) (acc : N) (cnt : nat)
  : N * nat * string :=
  match s with
  | String c s' =>
      match char_digit c with
      | Some d => scan_digits s' (acc * 10 + d) (S cnt)
      | None => (acc, cnt, s)
      end
  | EmptyString => (acc, cnt, s)
  end.

(** The integer part: a single [0], or digits that start with a
    digit from 1 to 9. *)
Definition scan_int_part (s : string) : option (N * string) :=
  match s with
  | String c s' =>
      match char_digit c with
      | Some d =>
          if (d =? 0)%N then Some (0%N, s')
          else let '(n, _, r) := scan_digits s 0 0 in Some (n, r)
      | None => None
      end
  | EmptyString => None
  end.

(** The fraction: a point and at least one digit, when it is there. *)
Definition scan_frac (s : string) : option (N * nat * string) :=
  match s with
  | String c s' =>
      if Ascii.eqb c "." then
        match scan_digits s' 0 0 with
        | (_, O, _) => None
        | (n, cnt, r) => Some (n, cnt, r)
        end
      else None
  | EmptyString => None
  end.

(** The exponent: [e] or [E], an optional sign and at least one digit,
    when it is there. *)
Definition scan_exp (s : string) : option (Z * string) :=
  match s with
  | String c s' =>
      if (Ascii.eqb c "e" || Ascii.eqb c "E")%bool then
        let '(neg, s'') :=
          match s' with
          | String "-" t => (true, t)
          | String "+" t => (false, t)
          | _ => (false, s')
          end in
        match scan_digits s'' 0 0 with
        | (_, O, _) => None
        | (n, _, r) => Some (if neg then - Z.of_N n else Z.of_N n, r)
        end
      else None
  | EmptyString => None
  end.

Definition signed (neg : bool) (n : N) : Z :=
  if neg then - Z.of_N n else Z.of_N n.

(** The float [(ip * 10^fc + fr) * 10^(e - fc)]. *)
Definition make_float (neg : bool) (ip fr : N) (fc : nat) (e : Z)
  : pyfloat :=
  let mag := (ip * 10 ^ N.of_nat fc + fr)%N in
  let sh := e - Z.of_nat fc in
  if sh <? 0 then PyFloat (signed neg mag) (Nat.pred (Z.to_nat (- sh)))
  else PyFloat (signed neg mag * 10 ^ (sh + 1)) 0.

(** An optional minus sign, the integer part, an optional fraction and
    an optional exponent: an [int] when there is neither fraction nor
    exponent, else a [float]. *)
Definition read_minus (s : string) : bool * string :=
  match s with
  | String c t => if Ascii.eqb c "-" then (true, t) else (false, s)
  | EmptyString => (false, s)
  end.

Definition parse_number (s : string) : option (value * string) :=
  let '(neg, s1) := read_minus s in
  match scan_int_part s1 with
  | None => None
  | Some (ip, r1) =>
      let '(fr, r2) :=
        match scan_frac r1 with
        | Some (n, c, r) => (Some (n, c), r)
        | None => (None, r1)
        end in
      let '(ex, r3) :=
        match scan_exp r2 with
        | Some (e, r) => (Some e, r)
        | None => (None, r2)
        end in
      match fr, ex with
      | None, None => Some (VInt (signed neg ip), r3)
      | Some (n, c), None => Some (VFloat (make_float neg ip n c 0), r3)
      | Some (n, c), Some e => Some (VFloat (make_float neg ip n c e), r3)
      | None, Some e => Some (VFloat (make_float neg ip 0 0 e), r3)
      end
  end.

(** *** [json.loads]: strings, in strict mode *)

Definition unescape (e : ascii) : option ascii :=
  if Ascii.eqb e quote then Some quote
  else
    match e with
    | "\" => Some "\" | "/" => Some "/" | "b" => Some "008"
    | "f" => Some "012" | "n" => Some "010" | "r" => Some "013"
    | "t" => Some "009" | _ => None
    end%char.

(** The code point of [\uXXXX], when it is below 256. *)
Definition hex4 (a b c d : ascii) : option ascii :=
  match char_hex a, char_hex b, char_hex c, char_hex d with
  | Some x, Some y, Some z, Some w =>
      let n := (((x * 16 + y) * 16 + z) * 16 + w)%N in
      if (n <? 256)%N then Some (ascii_of_N n) else None
  | _, _, _, _ => None
  end.

Definition cons_char (c : ascii) (r : option (string * string))
  : option (string * string) :=
  match r with Some (t, rest) => Some (String c t, rest) | None => None end.

(** The text after an opening quote, up to the closing one. *)
Fixpoint scan_string (s : string) : option (string * string) :=
  match s with
  | EmptyString => None
  | String c s' =>
      if Ascii.eqb c quote then Some (EmptyString, s')
      else if Ascii.eqb c "\" then
        match s' with
        | String "u" (String h1 (String h2 (String h3 (String h4 r)))) =>
            match hex4 h1 h2 h3 h4 with
            | Some ch => cons_char ch (scan_string r)
            | None => None
            end
        | String e s'' =>
            match unescape e with
            | Some ch => cons_char ch (scan_string s'')
            | None => None
            end
        | EmptyString => None
        end
      else if (N_of_ascii c <? 32)%N then None
      else cons_char c (scan_string s')
  end.

(** *** [json.loads]: values *)

(** [dict(pairs)]: a later pair replaces the value of an earlier one
    with the same key. *)
Definition dict_of_pairs (pairs : list (string * value)) : dict value :=
  fold_left (fun d kv => dict_set (fst kv) (snd kv) d) pairs [].

(** What follows the character [c] at the head of [s], when [s] starts
    with it. *)
Definition starts_with (c : ascii) (s : string) : option string :=
  match s with
  | String c' r => if Ascii.eqb c c' then Some r else None
  | EmptyString => None
  end.

Fixpoint parse_value (fuel : nat) (s : string) {struct fuel}
  : option (value * string) :=
  match fuel with
  | O => None
  | S fuel' =>
      match skip_ws s with
      | EmptyString => None
      | String c s' =>
          if Ascii.eqb c quote then
            match scan_string s' with
            | Some (t, r) => Some (VStr t, r)
            | None => None
            end
          else
            match c with
            | "{"%char =>
                match starts_with "}" (skip_ws s') with
                | Some r => Some (VDict [], r)
                | None =>
                    match parse_members fuel' (skip_ws s') with
                    | Some (d, r) => Some (VDict (dict_of_pairs d), r)
                    | None => None
                    end
                end
            | "["%char =>
                match starts_with "]" (skip_ws s') with
                | Some r => Some (VList [], r)
                | None =>
                    match parse_elements fuel' (skip_ws s') with
                    | Some (l, r) => Some (VList l, r)
                    | None => None
                    end
                end
            | "n"%char =>
                match s' with
                | String "u" (String "l" (String "l" r)) => Some (VNone, r)
                | _ => None
                end
            | "t"%char =>
                match s' with
                | String "r" (String "u" (String "e" r)) =>
                    Some (VBool true, r)
                | _ => None
                end
            | "f"%char =>
                match s' with
                | String "a" (String "l" (String "s" (String "e" r))) =>
                    Some (VBool false, r)
                | _ => None
                end
            | _ => parse_number (String c s')
            end
      end
  end

with parse_elements (fuel : nat) (s : string) {struct fuel}
  : option (list value * string) :=
  match fuel with
  | O => None
  | S fuel' =>
      match parse_value fuel' s with
      | None => None
      | Some (v, r) =>
          match skip_ws r with
          | String "," r' =>
              match parse_elements fuel' r' with
              | Some (l, r'') => Some (v :: l, r'')
              | None => None
              end
          | String "]" r' => Some ([v], r')
          | _ => None
          end
      end
  end

with parse_members (fuel : nat) (s : string) {struct fuel}
  : option (list (string * value) * string) :=
  match fuel with
  | O => None
  | S fuel' =>
      match skip_ws s with
      | EmptyString => None
      | String c s' =>
          if Ascii.eqb c quote then
            match scan_string s' with
            | None => None
            | Some (k, r) =>
                match skip_ws r with
                | String ":" r1 =>
                    match parse_value fuel' r1 with
                    | None => None
                    | Some (v, r2) =>
                        match skip_ws r2 with
                        | String "," r3 =>
                            match parse_members fuel' r3 with
                            | Some (d, r4) => Some ((k, v) :: d, r4)
                            | None => None
                            end
                        | String "}" r3 => Some ([(k, v)], r3)
                        | _ => None
                        end
                    end
                | _ => None
                end
            end
          else None
      end
  end.

(** [json.loads(s)].  The literals [NaN], [Infinity] and [-Infinity],
    which the library also reads, have no [value] and are refused, as
    are [\u] escapes of code points from 256 on. *)
Definition loads (s : string) : result value :=
  match parse_value (S (String.length s)) s with
  | Some (v, r) =>
      match skip_ws r with
      | EmptyString => Ok v
      | _ => Raise (Exn JSONDecodeError "Extra data")
      end
  | None => Raise (Exn JSONDecodeError "Expecting value")
  end.

End Json.

(** ** The [pydantic] library *)

(** Validation of a model made by [create_model], in the default (lax)
    mode of pydantic 2, for the six field types that
    [_json_type_to_python] can give.  A field declared as [(type, ...)] is
    required; a field declared as [(type, None)] has the default [None],
    which is not validated, while a [None] that is passed for it is
    validated against [type] and refused.  Keys of the input that name no
    field are ignored.  [model_dump] lists the fields in the order of
    their declaration. *)
Module Pydantic.

Inductive pytype : Type := Tstr | Tint | Tfloat | Tbool | Tlist | Tdict.

Definition read_sign (s : string) : bool * string :=
  match s with
  | String "-" t => (true, t)
  | String "+" t => (false, t)
  | _ => (false, s)
  end.

(** A string is read as an [int] when it is a sign and digits. *)
Definition int_of_str (s : string) : option Z :=
  let '(neg, s1) := read_sign s in
  match Json.scan_digits s1 0 0 with
  | (n, S _, EmptyString) => Some (Json.signed neg n)
  | _ => None
  end.

(** A string is read as a [float] when it is a sign, digits and
    possibly a point and digits. *)
Definition float_of_str (s : string) : option pyfloat :=
  let '(neg, s1) := read_sign s in
  match Json.scan_digits s1 0 0 with
  | (ip, S _, EmptyString) => Some (Json.make_float neg ip 0 0 0)
  | (ip, S _, r) =>
      match Json.scan_frac r with
      | Some (fr, fc, EmptyString) => Some (Json.make_float neg ip fr fc 0)
      | _ => None
      end
  | _ => None
  end.

Definition float_of_int (z : Z) : pyfloat := PyFloat (z * 10) 0.

(** The integer a float is equal to, when there is one. *)
Definition int_of_float (f : pyfloat) : option Z :=
  let p := 10 ^ Z.of_nat (S (f_frac_pred f)) in
  if f_mant f mod p =? 0 then Some (f_mant f / p) else None.

Definition lower_char (c : ascii) : ascii :=
  let n := N_of_ascii c in
  if ((65 <=? n) && (n <=? 90))%N then ascii_of_N (n + 32) else c.

Fixpoint lower (s : string) : string :=
  match s with
  | EmptyString => EmptyString
  | String c s' => String (lower_char c) (lower s')
  end.

Definition bool_of_str (s : string) : option bool :=
  let t := lower s in
  if existsb (String.eqb t) ["1"; "on"; "t"; "true"; "y"; "yes"]
  then Some true
  else if existsb (String.eqb t) ["0"; "off"; "f"; "false"; "n"; "no"]
  then Some false
  else None.

Definition bool_of_int (z : Z) : option bool :=
  if z =? 0 then Some false else if z =? 1 then Some true else None.

(** The validated value, or [None] when the input is refused. *)
Definition validate (t : pytype) (v : value) : option value :=
  match t, v with
  | Tstr, VStr s => Some (VStr s)
  | Tint, VInt z => Some (VInt z)
  | Tint, VBool b => Some (VInt (if b then 1 else 0))
  | Tint, VFloat f => option_map VInt (int_of_float f)
  | Tint, VStr s => option_map VInt (int_of_str s)
  | Tfloat, VFloat f => Some (VFloat f)
  | Tfloat, VInt z => Some (VFloat (float_of_int z))
  | Tfloat, VBool b => Some (VFloat (float_of_int (if b then 1 else 0)))
  | Tfloat, VStr s => option_map VFloat (float_of_str s)
  | Tbool, VBool b => Some (VBool b)
  | Tbool, VInt z => option_map VBool (bool_of_int z)
  | Tbool, VFloat f =>
      match int_of_float f with
      | Some z => option_map VBool (bool_of_int z)
      | None => None
      end
  | Tbool, VStr s => option_map VBool (bool_of_str s)
  | Tlist, VList l => Some (VList l)
  | Tdict, VDict d => Some (VDict d)
  | _, _ => None
  end.

(** A field: its type and whether it is required. *)
Definition field_definition : Type := pytype * bool.

(** The outcome for one field: the entry of the dump, or the name of
    the field when the input for it is missing or refused. *)
Definition validate_field (data : dict value)
    (fd : string * field_definition) : dict value + string :=
  let '(fname, (t, required)) := fd in
  match dict_get fname data with
  | Some v =>
      match validate t v with
      | Some v' => inl [(fname, v')]
      | None => inr fname
      end
  | None => if required then inr fname else inl [(fname, VNone)]
  end.

(** All fields are validated; the errors are collected. *)
Fixpoint validate_fields (data : dict value)
    (fds : dict field_definition) : dict value * list string :=
  match fds with
  | [] => ([], [])
  | fd :: fds' =>
      let '(dump, errors) := validate_fields data fds' in
      match validate_field data fd with
      | inl entry => ((entry ++ dump)%list, errors)
      | inr fname => (dump, fname :: errors)
      end
  end.

(** The model with the fields [fds] is made by [create_model], built
    from the keyword arguments [data] and dumped by [model_dump].  The
    text of the error is cut down to the model and the fields at
    fault. *)
Definition validate_model (model_name : string)
    (fds : dict field_definition) (data : dict value)
  : result (dict value) :=
  match validate_fields data fds with
  | (dump, []) => Ok dump
  | (_, errors) =>
      Raise (Exn ValidationError
               ("validation errors for " ++ model_name ++ ": "
                ++ String.concat ", " errors))
  end.

End Pydantic.

(** ** The clock *)

Definition time : Type := Z.

Record Clock : Type := { readings : nat -> time; reads : nat }.

(** [time.time()] *)
Definition time_time (c : Clock) : time * Clock :=
  (readings c (reads c), {| readings := readings c; reads := S (reads c) |}).

(** A duration in ticks, as the [float] of its seconds. *)
Definition seconds (ticks : Z) : value := VFloat (PyFloat ticks 5).

(** ** [sorted(l, key=key, reverse=True)] *)

Section SortedReverse.
Context {A : Type} (key : A -> Z).

(** [x] goes in front of the first element whose key is not greater:
    elements with equal keys keep the order they had. *)
Fixpoint insert_reverse (x : A) (l : list A) : list A :=
  match l with
  | [] => [x]
  | y :: l' => if key x <? key y then y :: insert_reverse x l' else x :: l
  end.

Definition sorted_reverse (l : list A) : list A :=
  fold_right insert_reverse [] l.
End SortedReverse.

(** ** Callables *)

(** The annotations [_get_type_schema] tells apart; [Ann_other] is any
    other annotation. *)
Inductive annotation : Type :=
| Ann_str | Ann_int | Ann_float | Ann_bool
| Ann_List_str | Ann_List_int | Ann_Dict_str_Any | Ann_other.

(** An entry of [inspect.signature(func).parameters]. *)
Record SigParameter : Type := {
  param_name : string;
  param_annotation : option annotation;
  param_has_default : bool
}.

Inductive outcome : Type :=
| Returns (v : value)
| Raises (e : exn).

(** A host function: [__name__], [__doc__], its signature, and what a
    call with given keyword arguments does.  A callable is taken to act
    on nothing but its arguments. *)
Record Callable : Type := {
  fn_name : string;
  fn_doc : option string;
  fn_signature : list SigParameter;
  fn_body : dict value -> outcome
}.

(** A call of [func] with the keyword arguments [kwargs]: the arguments
    are bound to the parameters, then the body runs. *)
Definition call_function (func : Callable) (kwargs : dict value) : outcome :=
  let names := map param_name (fn_signature func) in
  if negb (forallb (fun k => str_in k names) (dict_keys kwargs)) then
    Raises (Exn TypeError
              (fn_name func ++ "() got an unexpected keyword argument"))
  else if negb (forallb (fun p => param_has_default p
                                  || dict_mem (param_name p) kwargs)
                  (fn_signature func)) then
    Raises (Exn TypeError
              (fn_name func ++ "() missing required arguments"))
  else fn_body func kwargs.

(** [a or b] for an optional string: [None] and the empty string are
    false. *)
Definition str_or (a : option string) (b : string) : string :=
  match a with
  | Some EmptyString | None => b
  | Some s => s
  end.

(** ** [FunctionSchema] *)

Module FunctionSchema.
Record t : Type := {
  name : string;
  description : string;
  parameters : dict value;
  required_params : list string;
  context_requirements : list string;
  priority : Z;
  cooldown : time
}.
End FunctionSchema.

(** ** [FunctionRegistry] *)

Record FunctionRegistry : Type := {
  _functions : dict Callable;
  _schemas : dict FunctionSchema.t;
  _last_called : dict time;
  _call_count : dict Z
}.

(** [FunctionRegistry()] *)
Definition new_registry : FunctionRegistry :=
  {| _functions := []; _schemas := []; _last_called := [];
     _call_count := [] |}.

Definition _get_type_schema (a : annotation) : dict value :=
  match a with
  | Ann_str => [("type", VStr "string")]
  | Ann_int => [("type", VStr "integer")]
  | Ann_float => [("type", VStr "number")]
  | Ann_bool => [("type", VStr "boolean")]
  | Ann_List_str =>
      [("type", VStr "array"); ("items", VDict [("type", VStr "string")])]
  | Ann_List_int =>
      [("type", VStr "array"); ("items", VDict [("type", VStr "integer")])]
  | Ann_Dict_str_Any => [("type", VStr "object")]
  | Ann_other => [("type", VStr "string")]
  end.

(** One turn of the loop over the signature in [register]. *)
Definition register_param (acc : dict value * list string) (p : SigParameter)
  : dict value * list string :=
  let '(params, required) := acc in
  let param_type :=
    match param_annotation p with
    | None => [("type", VStr "string")]
    | Some a => _get_type_schema a
    end in
  let required' :=
    if param_has_default p then required
    else (required ++ [param_name p])%list in
  (dict_set (param_name p)
     (VDict (dict_set "description"
               (VStr ("Parameter " ++ param_name p)) param_type))
     params,
   required').

(** The schema [register] builds for [func]. *)
Definition make_schema (func : Callable) (name description : option string)
    (priority : Z) (cooldown : time) : FunctionSchema.t :=
  let func_name := str_or name (fn_name func) in
  let func_doc :=
    str_or description (str_or (fn_doc func) "No description provided") in
  let '(params, required) :=
    fold_left register_param (fn_signature func) ([], []) in
  {| FunctionSchema.name := func_name;
     FunctionSchema.description := func_doc;
     FunctionSchema.parameters :=
       [("type", VStr "object"); ("properties", VDict params)];
     FunctionSchema.required_params := required;
     FunctionSchema.context_requirements := [];
     FunctionSchema.priority := priority;
     FunctionSchema.cooldown := cooldown |}.

(** [register(func, name=..., description=..., priority=..., cooldown=...)],
    also when it is used as a decorator. *)
Definition register (self : FunctionRegistry) (func : Callable)
    (name description : option string) (priority : Z) (cooldown : time)
  : FunctionRegistry :=
  let func_name := str_or name (fn_name func) in
  let schema := make_schema func name description priority cooldown in
  {| _functions := dict_set func_name func (_functions self);
     _schemas := dict_set func_name schema (_schemas self);
     _last_called := _last_called self;
     _call_count := dict_set func_name 0 (_call_count self) |}.

Definition get_function (self : FunctionRegistry) (name : string)
  : option Callable :=
  dict_get name (_functions self).

Definition get_schema (self : FunctionRegistry) (name : string)
  : option FunctionSchema.t :=
  dict_get name (_schemas self).

Definition get_all_schemas (self : FunctionRegistry)
  : list FunctionSchema.t :=
  dict_values (_schemas self).

(** The test of one entry of [_schemas] in [filter_functions], at the
    time [current_time] read for it. *)
Definition is_available (self : FunctionRegistry) (context : dict value)
    (name : string) (schema : FunctionSchema.t) (current_time : time)
  : bool :=
  let context_met :=
    forallb (fun req => dict_mem req context)
      (FunctionSchema.context_requirements schema) in
  let last_call_time := dict_get_default name (_last_called self) 0 in
  let cooldown_passed :=
    FunctionSchema.cooldown schema <=? current_time - last_call_time in
  context_met && cooldown_passed.

(** The loop of [filter_functions]: the clock is read once for each
    entry. *)
Fixpoint filter_loop (self : FunctionRegistry) (context : dict value)
    (items : dict FunctionSchema.t) (c : Clock) : list string * Clock :=
  match items with
  | [] => ([], c)
  | (name, schema) :: items' =>
      let '(current_time, c1) := time_time c in
      let '(available, c2) := filter_loop self context items' c1 in
      (if is_available self context name schema current_time
       then name :: available else available, c2)
  end.

(** The key of the sort: [self._schemas[f].priority]. *)
Definition priority_of (self : FunctionRegistry) (f : string) : Z :=
  match dict_get f (_schemas self) with
  | Some schema => FunctionSchema.priority schema
  | None => 0
  end.

Definition filter_functions (self : FunctionRegistry) (context : dict value)
    (c : Clock) : list string * Clock :=
  let '(available_functions, c') :=
    filter_loop self context (_schemas self) c in
  (sorted_reverse (priority_of self) available_functions, c').

Definition log_call (self : FunctionRegistry) (name : string) (c : Clock)
  : FunctionRegistry * Clock :=
  let '(now, c') := time_time c in
  ({| _functions := _functions self;
      _schemas := _schemas self;
      _last_called := dict_set name now (_last_called self);
      _call_count :=
        dict_set name (dict_get_default name (_call_count self) 0 + 1)
          (_call_count self) |},
   c').

(** ** [ParameterBuilder] *)

Definition _json_type_to_python (json_type : string) : Pydantic.pytype :=
  if String.eqb json_type "string" then Pydantic.Tstr
  else if String.eqb json_type "integer" then Pydantic.Tint
  else if String.eqb json_type "number" then Pydantic.Tfloat
  else if String.eqb json_type "boolean" then Pydantic.Tbool
  else if String.eqb json_type "array" then Pydantic.Tlist
  else if String.eqb json_type "object" then Pydantic.Tdict
  else Pydantic.Tstr.

(** [k in container] *)
Definition py_contains (k : string) (container : value) : result bool :=
  match container with
  | VDict d => Ok (dict_mem k d)
  | VList l =>
      Ok (existsb (fun v => match v with
                            | VStr s => String.eqb k s
                            | _ => false
                            end) l)
  | VStr s =>
      Ok (match String.index 0 k s with Some _ => true | None => false end)
  | _ => Raise (Exn TypeError "argument is not iterable")
  end.

(** The first loop of [build_parameters]. *)
Fixpoint check_required (required : list string) (params_data : value)
  : result unit :=
  match required with
  | [] => Ok tt
  | req_param :: required' =>
      present <- py_contains req_param params_data ;;
      if present then check_required required' params_data
      else Raise (Exn ValueError
                    ("Missing required parameter: " ++ req_param))
  end.

(** [schema.parameters.get("properties", {}).items()] *)
Definition get_properties (schema : FunctionSchema.t) : result (dict value) :=
  match dict_get "properties" (FunctionSchema.parameters schema) with
  | None => Ok []
  | Some (VDict properties) => Ok properties
  | Some _ => Raise (Exn AttributeError "object has no attribute 'items'")
  end.

(** [self._json_type_to_python(prop.get("type", "string"))] *)
Definition field_type (prop : value) : result Pydantic.pytype :=
  match prop with
  | VDict p =>
      match dict_get "type" p with
      | None => Ok Pydantic.Tstr
      | Some (VStr json_type) => Ok (_json_type_to_python json_type)
      | Some (VList _) | Some (VDict _) =>
          Raise (Exn TypeError "unhashable type")
      | Some _ => Ok Pydantic.Tstr
      end
  | _ => Raise (Exn AttributeError "object has no attribute 'get'")
  end.

(** The second loop of [build_parameters]. *)
Fixpoint field_definitions (required_params : list string)
    (properties : dict value) (acc : dict Pydantic.field_definition)
  : result (dict Pydantic.field_definition) :=
  match properties with
  | [] => Ok acc
  | (name, prop) :: properties' =>
      t <- field_type prop ;;
      let is_required := str_in name required_params in
      field_definitions required_params properties'
        (dict_set name (t, is_required) acc)
  end.

Definition build_parameters (registry : FunctionRegistry)
    (function_name : string) (params_data : value) : result (dict value) :=
  match get_schema registry function_name with
  | None => Raise (Exn ValueError ("Unknown function: " ++ function_name))
  | Some schema =>
      _ <- check_required (FunctionSchema.required_params schema)
             params_data ;;
      properties <- get_properties schema ;;
      fds <- field_definitions (FunctionSchema.required_params schema)
               properties [] ;;
      match params_data with
      | VDict data =>
          match Pydantic.validate_model (function_name ++ "Params") fds data
          with
          | Ok validated => Ok validated
          | Raise e =>
              Raise (Exn ValueError ("Invalid parameters: " ++ exn_str e))
          end
      | _ => Raise (Exn TypeError "argument after ** must be a mapping")
      end
  end.

(** ** [SmartCaller] *)

(** The parameter builder shares the registry of its caller, so one
    field stands for both. *)
Record SmartCaller : Type := {
  registry : FunctionRegistry;
  _results_cache : dict (dict value)
}.

(** [SmartCaller()] *)
Definition new_smart_caller : SmartCaller :=
  {| registry := new_registry; _results_cache := [] |}.

Definition register_function (self : SmartCaller) (func : Callable)
    (name description : option string) (priority : Z) (cooldown : time)
  : SmartCaller :=
  {| registry := register (registry self) func name description
                   priority cooldown;
     _results_cache := _results_cache self |}.

(** One element of the list of [get_function_descriptions]. *)
Definition describe (schema : FunctionSchema.t) : value :=
  VDict [("type", VStr "function");
         ("function",
          VDict [("name", VStr (FunctionSchema.name schema));
                 ("description", VStr (FunctionSchema.description schema));
                 ("parameters", VDict (FunctionSchema.parameters schema))])].

(** The body of [get_function_descriptions]. *)
Definition compute_function_descriptions (self : SmartCaller) : list value :=
  map describe (get_all_schemas (registry self)).

(** [functools.lru_cache(maxsize=128)] on a method: one cache for all
    the instances, with the instance as the key.  The entries are kept
    from the most recently used to the least recently used. *)
Module LruCache.

Definition maxsize : nat := 128.

Definition t (V : Type) : Type := list (nat * V).

Section Ops.
Context {V : Type}.

Fixpoint lookup (key : nat) (cache : t V) : option V :=
  match cache with
  | [] => None
  | (k, v) :: cache' => if Nat.eqb key k then Some v else lookup key cache'
  end.

Fixpoint remove (key : nat) (cache : t V) : t V :=
  match cache with
  | [] => []
  | (k, v) :: cache' =>
      if Nat.eqb key k then cache' else (k, v) :: remove key cache'
  end.

(** A call with the key [key] of a function whose body gives
    [compute]: the result and the cache after the call.  On a miss
    with a full cache the least recently used entry goes. *)
Definition call (key : nat) (compute : V) (cache : t V) : V * t V :=
  match lookup key cache with
  | Some v => (v, (key, v) :: remove key cache)
  | None => (compute, (key, compute) :: firstn (maxsize - 1) cache)
  end.
End Ops.

End LruCache.

(** [self.get_function_descriptions()] for the instance numbered [id]. *)
Definition get_function_descriptions (cache : LruCache.t (list value))
    (id : nat) (self : SmartCaller)
  : list value * LruCache.t (list value) :=
  LruCache.call id (compute_function_descriptions self) cache.

(** [desc["function"]["name"]] *)
Definition desc_name (desc : value) : option string :=
  match desc with
  | VDict d =>
      match dict_get "function" d with
      | Some (VDict f) =>
          match dict_get "name" f with
          | Some (VStr n) => Some n
          | _ => None
          end
      | _ => None
      end
  | _ => None
  end.

Definition context_or_empty (context : option (dict value)) : dict value :=
  match context with Some ctx => ctx | None => [] end.

Definition prepare_for_llm (cache : LruCache.t (list value)) (id : nat)
    (self : SmartCaller) (context : option (dict value)) (c : Clock)
  : list value * LruCache.t (list value) * Clock :=
  let context := context_or_empty context in
  let '(available_functions, c') :=
    filter_functions (registry self) context c in
  let '(all_descriptions, cache') :=
    get_function_descriptions cache id self in
  (filter (fun desc => match desc_name desc with
                       | Some n => str_in n available_functions
                       | None => false
                       end) all_descriptions,
   cache', c').

(** A call request: [call_data.get("name")] and, when the key is there,
    [call_data["arguments"]]. *)
Record CallRequest : Type := {
  call_name : option string;
  call_arguments : option value
}.

(** What [execute_function_call] does for its caller: it returns a
    response, or an exception goes through it. *)
Inductive dispatch : Type :=
| Returned (response : dict value)
| Propagated (e : exn).

Definition failure (message : string) : dict value :=
  [("error", VStr message); ("success", VBool false)].

(** [function_args] after the decoding step. *)
Definition decode_arguments (call_data : CallRequest) : value :=
  let function_args :=
    match call_arguments call_data with
    | Some v => v
    | None => VStr "{}"
    end in
  match function_args with
  | VStr s =>
      match Json.loads s with
      | Ok v => v
      | Raise _ => VDict []
      end
  | _ => function_args
  end.

Definition name_text (function_name : option string) : string :=
  match function_name with Some n => n | None => "None" end.

(** The [try] block of [execute_function_call] for the callable [func]
    registered as [function_name]. *)
Definition try_call (self : SmartCaller) (function_name : string)
    (func : Callable) (function_args : value) (c : Clock)
  : dispatch * SmartCaller * Clock :=
  match build_parameters (registry self) function_name function_args with
  | Raise e =>
      if is_Exception e then (Returned (failure (exn_str e)), self, c)
      else (Propagated e, self, c)
  | Ok validated_params =>
      let '(registry', c1) := log_call (registry self) function_name c in
      let self1 := {| registry := registry';
                      _results_cache := _results_cache self |} in
      let '(start_time, c2) := time_time c1 in
      match call_function func validated_params with
      | Raises e =>
          if is_Exception e then (Returned (failure (exn_str e)), self1, c2)
          else (Propagated e, self1, c2)
      | Returns result =>
          let '(end_time, c3) := time_time c2 in
          let execution_time := end_time - start_time in
          let response :=
            [("result", result);
             ("execution_time", seconds execution_time);
             ("success", VBool true)] in
          let cache_key :=
            function_name ++ ":"
            ++ Json.dumps_sorted (VDict validated_params) in
          (Returned response,
           {| registry := registry';
              _results_cache :=
                dict_set cache_key response (_results_cache self) |},
           c3)
      end
  end.

Definition execute_function_call (self : SmartCaller)
    (call_data : CallRequest) (context : option (dict value)) (c : Clock)
  : dispatch * SmartCaller * Clock :=
  let context := context_or_empty context in
  let function_name := call_name call_data in
  let function_args := decode_arguments call_data in
  match match function_name with
        | Some n => option_map (pair n) (get_function (registry self) n)
        | None => None
        end
  with
  | None =>
      (Returned (failure ("Unknown function: " ++ name_text function_name)),
       self, c)
  | Some (n, func) =>
      let '(available_functions, c') :=
        filter_functions (registry self) context c in
      if negb (str_in n available_functions) then
        (Returned (failure ("Function " ++ n
                            ++ " is not available in current context")),
         self, c')
      else try_call self n func function_args c'
  end.

Definition get_cached_result (self : SmartCaller) (function_name : string)
    (params : value) : option (dict value) :=
  dict_get (function_name ++ ":" ++ Json.dumps_sorted params)
    (_results_cache self).

(** ** Sequences of operations *)

(** The public methods of [FunctionRegistry]. *)
Inductive registry_op : Type :=
| Op_register (func : Callable) (name description : option string)
    (priority : Z) (cooldown : time)
| Op_get_function (name : string)
| Op_get_schema (name : string)
| Op_get_all_schemas
| Op_filter_functions (context : dict value)
| Op_log_call (name : string).

Definition registry_step (st : FunctionRegistry * Clock) (op : registry_op)
  : FunctionRegistry * Clock :=
  let '(self, c) := st in
  match op with
  | Op_register func name description priority cooldown =>
      (register self func name description priority cooldown, c)
  | Op_get_function _ | Op_get_schema _ | Op_get_all_schemas => (self, c)
  | Op_filter_functions context => (self, snd (filter_functions self context c))
  | Op_log_call name => log_call self name c
  end.

Definition registry_run (ops : list registry_op)
    (st : FunctionRegistry * Clock) : FunctionRegistry * Clock :=
  fold_left registry_step ops st.

(** The name an operation registers, when it is a registration. *)
Definition registers (op : registry_op) : option string :=
  match op with
  | Op_register func name _ _ _ => Some (str_or name (fn_name func))
  | _ => None
  end.

(** The instances of [SmartCaller] of a process, numbered in the order
    of their creation, and the cache of [get_function_descriptions] they
    share. *)
Record World : Type := {
  instances : list SmartCaller;
  descriptions_cache : LruCache.t (list value)
}.

Definition new_world : World :=
  {| instances := []; descriptions_cache := [] |}.

Inductive operation : Type :=
| New_smart_caller
| Register_function (id : nat) (func : Callable)
    (name description : option string) (priority : Z) (cooldown : time)
| Get_function_descriptions (id : nat)
| Prepare_for_llm (id : nat) (context : option (dict value))
| Execute_function_call (id : nat) (call_data : CallRequest)
    (context : option (dict value)).

Fixpoint set_instance (id : nat) (self : SmartCaller)
    (l : list SmartCaller) : list SmartCaller :=
  match l, id with
  | [], _ => []
  | _ :: l', O => self :: l'
  | x :: l', S id' => x :: set_instance id' self l'
  end.

Definition step (st : World * Clock) (op : operation) : World * Clock :=
  let '(w, c) := st in
  match op with
  | New_smart_caller =>
      ({| instances := (instances w ++ [new_smart_caller])%list;
          descriptions_cache := descriptions_cache w |}, c)
  | Register_function id func name description priority cooldown =>
      match nth_error (instances w) id with
      | Some self =>
          ({| instances :=
                set_instance id
                  (register_function self func name description
                     priority cooldown) (instances w);
              descriptions_cache := descriptions_cache w |}, c)
      | None => (w, c)
      end
  | Get_function_descriptions id =>
      match nth_error (instances w) id with
      | Some self =>
          ({| instances := instances w;
              descriptions_cache :=
                snd (get_function_descriptions (descriptions_cache w)
                       id self) |}, c)
      | None => (w, c)
      end
  | Prepare_for_llm id context =>
      match nth_error (instances w) id with
      | Some self =>
          let '(_, cache', c') :=
            prepare_for_llm (descriptions_cache w) id self context c in
          ({| instances := instances w; descriptions_cache := cache' |}, c')
      | None => (w, c)
      end
  | Execute_function_call id call_data context =>
      match nth_error (instances w) id with
      | Some self =>
          let '(_, self', c') :=
            execute_function_call self call_data context c in
          ({| instances := set_instance id self' (instances w);
              descriptions_cache := descriptions_cache w |}, c')
      | None => (w, c)
      end
  end.

Definition run (ops : list operation) (st : World * Clock) : World * Clock :=
  fold_left step ops st.

(** The instances whose descriptions an operation asks for. *)
Definition cache_user (op : operation) : list nat :=
  match op with
  | Get_function_descriptions id | Prepare_for_llm id _ => [id]
  | _ => []
  end.

(** ** [StateTracker] *)

(** The attributes are values: [from_json] stores what the document
    holds. *)
Record StateTracker : Type := {
  session_id : value;
  ttl : Z;
  created_at : value;
  last_updated : value;
  _state : value;
  _history : value
}.

(** [bool(v)] *)
Definition truthy (v : value) : bool :=
  match v with
  | VNone => false
  | VBool b => b
  | VInt z => negb (z =? 0)
  | VFloat f => negb (f_mant f =? 0)
  | VStr EmptyString => false
  | VStr _ => true
  | VList [] => false
  | VList _ => true
  | VDict [] => false
  | VDict _ => true
  end.

(** [StateTracker(session_id=session_id, ttl=ttl)] *)
Definition new_state_tracker (session_id : value) (ttl : Z) (c : Clock)
  : StateTracker * Clock :=
  let '(sid, c1) :=
    if truthy session_id then (session_id, c)
    else
      let '(t, c') := time_time c in
      (VStr ("session_" ++ Json.print_int (t / 1000000) EmptyString), c') in
  let '(now, c2) := time_time c1 in
  ({| session_id := sid; ttl := ttl;
      created_at := seconds now; last_updated := seconds now;
      _state := VDict []; _history := VList [] |},
   c2).

(** [self._state[key] = value], for the attribute a tracker has after
    [from_json] too. *)
Definition update (self : StateTracker) (key : string) (v : value)
    (c : Clock) : result StateTracker * Clock :=
  match _state self with
  | VDict d =>
      let '(now, c') := time_time c in
      (Ok {| session_id := session_id self; ttl := ttl self;
             created_at := created_at self; last_updated := seconds now;
             _state := VDict (dict_set key v d);
             _history := _history self |}, c')
  | _ =>
      (Raise (Exn TypeError "object does not support item assignment"), c)
  end.

Definition add_to_history (self : StateTracker) (entry_type : string)
    (data : value) (c : Clock) : result StateTracker * Clock :=
  match _history self with
  | VList h =>
      let '(now, c') := time_time c in
      (Ok {| session_id := session_id self; ttl := ttl self;
             created_at := created_at self;
             last_updated := last_updated self;
             _state := _state self;
             _history :=
               VList (h ++ [VDict [("type", VStr entry_type);
                                   ("timestamp", seconds now);
                                   ("data", data)]])%list |}, c')
  | _ => (Raise (Exn AttributeError "object has no attribute 'append'"), c)
  end.

(** The document [to_json] serializes. *)
Definition document (self : StateTracker) : value :=
  VDict [("session_id", session_id self);
         ("created_at", created_at self);
         ("last_updated", last_updated self);
         ("state", _state self);
         ("history", _history self)].

Definition to_json (self : StateTracker) : string :=
  Json.dumps (document self).

(** [data[key]] *)
Definition subscript (data : value) (key : string) : result value :=
  match data with
  | VDict d =>
      match dict_get key d with
      | Some v => Ok v
      | None => Raise (Exn KeyError key)
      end
  | VList _ | VStr _ => Raise (Exn TypeError "indices must be integers")
  | _ => Raise (Exn TypeError "object is not subscriptable")
  end.

Definition from_json (json_str : string) (c : Clock)
  : result StateTracker * Clock :=
  match Json.loads json_str with
  | Raise e => (Raise e, c)
  | Ok data =>
      match subscript data "session_id" with
      | Raise e => (Raise e, c)
      | Ok sid =>
          let '(tracker, c') := new_state_tracker sid 3600 c in
          (created <- subscript data "created_at" ;;
           updated <- subscript data "last_updated" ;;
           state <- subscript data "state" ;;
           history <- subscript data "history" ;;
           Ok {| session_id := session_id tracker; ttl := ttl tracker;
                 created_at := created; last_updated := updated;
                 _state := state; _history := history |},
           c')
      end
  end.

(** ** [StateTracker]: the other methods *)

(** [d.update(data)] for a dictionary [data]: its items are assigned in
    their order. *)
Definition dict_update {V : Type} (d data : dict V) : dict V :=
  fold_left (fun acc kv => dict_set (fst kv) (snd kv) acc) data d.

(** [self._state.get(key, default)] *)
Definition get (self : StateTracker) (key : string) (default : value)
  : result value :=
  match _state self with
  | VDict d => Ok (dict_get_default key d default)
  | _ => Raise (Exn AttributeError "object has no attribute 'get'")
  end.

Definition merge (self : StateTracker) (data : dict value) (c : Clock)
  : result StateTracker * Clock :=
  match _state self with
  | VDict d =>
      let '(now, c') := time_time c in
      (Ok {| session_id := session_id self; ttl := ttl self;
             created_at := created_at self; last_updated := seconds now;
             _state := VDict (dict_update d data);
             _history := _history self |}, c')
  | _ => (Raise (Exn AttributeError "object has no attribute 'update'"), c)
  end.

Definition clear (self : StateTracker) (c : Clock) : StateTracker * Clock :=
  let '(now, c') := time_time c in
  ({| session_id := session_id self; ttl := ttl self;
      created_at := created_at self; last_updated := seconds now;
      _state := VDict []; _history := _history self |}, c').

(** The elements a [for] loop over [v] goes through. *)
Definition iterate (v : value) : result (list value) :=
  match v with
  | VList l => Ok l
  | VDict d => Ok (map VStr (dict_keys d))
  | VStr s =>
      Ok (map (fun ch => VStr (String ch EmptyString))
            (list_ascii_of_string s))
  | _ => Raise (Exn TypeError "object is not iterable")
  end.

(** [entry["type"] == entry_type] *)
Definition entry_has_type (entry_type : string) (entry : value)
  : result bool :=
  t <- subscript entry "type" ;;
  Ok (match t with VStr s => String.eqb s entry_type | _ => false end).

(** [[entry for entry in entries if entry["type"] == entry_type]] *)
Fixpoint entries_of_type (entry_type : string) (entries : list value)
  : result (list value) :=
  match entries with
  | [] => Ok []
  | entry :: entries' =>
      keep <- entry_has_type entry_type entry ;;
      rest <- entries_of_type entry_type entries' ;;
      Ok (if keep then entry :: rest else rest)
  end.

Definition get_history (self : StateTracker) (entry_type : option string)
  : result value :=
  match entry_type with
  | None => Ok (_history self)
  | Some t =>
      entries <- iterate (_history self) ;;
      kept <- entries_of_type t entries ;;
      Ok (VList kept)
  end.

(** [(now - v) > ttl], for the time [now] read from the clock, in ticks,
    and numbers [v] and [ttl] of seconds; the difference is exact. *)
Definition elapsed_over (now : time) (v : value) (ttl : Z) : result bool :=
  match v with
  | VFloat f =>
      let p := 10 ^ Z.of_nat (S (f_frac_pred f)) in
      Ok (ttl * 1000000 * p <? now * p - f_mant f * 1000000)
  | VInt z => Ok (ttl * 1000000 <? now - z * 1000000)
  | VBool b => Ok (ttl * 1000000 <? now - (if b then 1 else 0) * 1000000)
  | _ => Raise (Exn TypeError "unsupported operand type(s) for -")
  end.

Definition is_expired (self : StateTracker) (c : Clock)
  : result bool * Clock :=
  let '(now, c') := time_time c in
  (elapsed_over now (last_updated self) (ttl self), c').

(** The methods of a [StateTracker]. *)
Inductive tracker_op : Type :=
| T_update (key : string) (v : value)
| T_get (key : string) (default : value)
| T_merge (data : dict value)
| T_clear
| T_add_to_history (entry_type : string) (data : value)
| T_get_history (entry_type : option string)
| T_is_expired.

(** One call: the tracker after it, or the exception it raises. *)
Definition tracker_call (self : StateTracker) (op : tracker_op) (c : Clock)
  : result StateTracker * Clock :=
  match op with
  | T_update key v => update self key v c
  | T_get key default => (_ <- get self key default ;; Ok self, c)
  | T_merge data => merge self data c
  | T_clear => let '(self', c') := clear self c in (Ok self', c')
  | T_add_to_history entry_type data => add_to_history self entry_type data c
  | T_get_history entry_type => (_ <- get_history self entry_type ;; Ok self, c)
  | T_is_expired =>
      let '(r, c') := is_expired self c in (_ <- r ;; Ok self, c')
  end.

(** A sequence of calls, which stops at the first exception. *)
Fixpoint tracker_run (ops : list tracker_op) (self : StateTracker)
    (c : Clock) : result StateTracker * Clock :=
  match ops with
  | [] => (Ok self, c)
  | op :: ops' =>
      match tracker_call self op c with
      | (Ok self', c') => tracker_run ops' self' c'
      | (Raise e, c') => (Raise e, c')
      end
  end.

(** ** [OpenAIAdapter] *)

(** A tool call of a reply of the API: [tool_call.function.name] and
    [tool_call.function.arguments]. *)
Record ToolCall : Type := {
  tool_name : string;
  tool_arguments : string
}.

(** [choice.message]: its [content] and its [tool_calls], either of
    which can be [None]. *)
Record Message : Type := {
  content : option string;
  tool_calls : option (list ToolCall)
}.

(** A reply of the API: the messages of [response.choices], in their
    order. *)
Record Response : Type := { choices : list Message }.

(** The adapter: its model, and what [client.chat.completions.create]
    does on the request number [n] made to the API, with the model, the
    messages and the tools it is given. *)
Record OpenAIAdapter : Type := {
  model : string;
  client : nat -> string -> list value -> list value -> result Response
}.

(** What the adapter works on: the instance [smart_caller] of the
    module [smart_caller], which has the number [caller_id] among the
    instances, the cache of descriptions, and the number of requests
    made to the API. *)
Record AdapterState : Type := {
  smart_caller : SmartCaller;
  caller_id : nat;
  descriptions : LruCache.t (list value);
  requests : nat
}.

(** [tenacity.retry(stop=stop_after_attempt(attempts))] around a
    function: when a call raises an [Exception] the function is called
    again, [attempts] times in all, after which [RetryError] is raised;
    any other outcome of a call is the outcome. *)
Fixpoint retrying {St A : Type} (attempts : nat)
    (f : St -> Clock -> result A * St * Clock) (s : St) (c : Clock)
  : result A * St * Clock :=
  match attempts with
  | O => (Raise (Exn OtherException "RetryError"), s, c)
  | S attempts' =>
      match f s c with
      | (Raise e, s', c') =>
          if is_Exception e then retrying attempts' f s' c'
          else (Raise e, s', c')
      | outcome => outcome
      end
  end.

(** [_process_response], on the instance [caller] of [SmartCaller].
    With no choice in the reply, [response.choices[0]] raises
    [IndexError], which is an [Exception]. *)
Definition _process_response (caller : SmartCaller) (response : Response)
    (context : dict value) (c : Clock)
  : result (dict value) * SmartCaller * Clock :=
  match choices response with
  | [] => (Raise (Exn OtherException "list index out of range"), caller, c)
  | message :: _ =>
      let text := VStr (str_or (content message) EmptyString) in
      match tool_calls message with
      | Some (tool_call :: _) =>
          let function_call :=
            VDict [("name", VStr (tool_name tool_call));
                   ("arguments", VStr (tool_arguments tool_call))] in
          match execute_function_call caller
                  {| call_name := Some (tool_name tool_call);
                     call_arguments :=
                       Some (VStr (tool_arguments tool_call)) |}
                  (Some context) c
          with
          | (Returned result, caller', c') =>
              if truthy (dict_get_default "success" result (VBool false))
              then
                (Ok [("content", text); ("function_call", function_call);
                     ("function_result",
                      dict_get_default "result" result VNone)],
                 caller', c')
              else
                (Ok [("content", text); ("function_call", function_call);
                     ("error", dict_get_default "error" result VNone)],
                 caller', c')
          | (Propagated e, caller', c') =>
              if is_Exception e then
                (Ok [("content", text); ("function_call", function_call);
                     ("error", VStr (exn_str e))],
                 caller', c')
              else (Raise e, caller', c')
          end
      | _ => (Ok [("content", text); ("function_call", VNone)], caller, c)
      end
  end.

(** The answer of [chat_completion_with_functions] to an error. *)
Definition error_answer (message : string) : dict value :=
  [("content", VStr ("Error: " ++ message)); ("function_call", VNone)].

(** The body of [chat_completion_with_functions]. *)
Definition chat_completion_body (self : OpenAIAdapter)
    (messages : list value) (context : option (dict value))
    (st : AdapterState) (c : Clock)
  : result (dict value) * AdapterState * Clock :=
  let context := context_or_empty context in
  let '(function_descriptions, cache', c1) :=
    prepare_for_llm (descriptions st) (caller_id st) (smart_caller st)
      (Some context) c in
  let after caller :=
    {| smart_caller := caller; caller_id := caller_id st;
       descriptions := cache'; requests := S (requests st) |} in
  match client self (requests st) (model self) messages
          function_descriptions
  with
  | Raise e =>
      if is_Exception e
      then (Ok (error_answer (exn_str e)), after (smart_caller st), c1)
      else (Raise e, after (smart_caller st), c1)
  | Ok response =>
      let '(answer, caller', c2) :=
        _process_response (smart_caller st) response context c1 in
      match answer with
      | Raise e =>
          if is_Exception e
          then (Ok (error_answer (exn_str e)), after caller', c2)
          else (Raise e, after caller', c2)
      | Ok a => (Ok a, after caller', c2)
      end
  end.

(** The method, under its decorator
    [retry(stop=stop_after_attempt(3), ...)]. *)
Definition chat_completion_with_functions (self : OpenAIAdapter)
    (messages : list value) (context : option (dict value))
    (st : AdapterState) (c : Clock)
  : result (dict value) * AdapterState * Clock :=
  retrying 3 (chat_completion_body self messages context) st c.

(** ** Callables and clocks used in the examples *)

Definition int_param (n : string) (has_default : bool) : SigParameter :=
  {| param_name := n; param_annotation := Some Ann_int;
     param_has_default := has_default |}.

(** [def add(a: int, b: int = 0): return a + b] *)
Definition add : Callable :=
  {| fn_name := "add";
     fn_doc := Some "Adds two numbers";
     fn_signature := [int_param "a" false; int_param "b" true];
     fn_body := fun kwargs =>
       match dict_get "a" kwargs, dict_get "b" kwargs with
       | Some (VInt x), Some (VInt y) => Returns (VInt (x + y))
       | Some (VInt x), None => Returns (VInt x)
       | _, _ => Raises (Exn TypeError "unsupported operand type(s) for +")
       end |}.

(** [def ping(): return "pong"] *)
Definition ping : Callable :=
  {| fn_name := "ping"; fn_doc := None; fn_signature := [];
     fn_body := fun _ => Returns (VStr "pong") |}.

(** [def boom(): raise RuntimeError("boom")] *)
Definition boom : Callable :=
  {| fn_name := "boom"; fn_doc := None; fn_signature := [];
     fn_body := fun _ => Raises (Exn OtherException "boom") |}.

(** [def leave(): sys.exit("bye")] *)
Definition leave : Callable :=
  {| fn_name := "leave"; fn_doc := None; fn_signature := [];
     fn_body := fun _ => Raises (Exn SystemExiting "bye") |}.

(** A clock that starts at 1 700 000 000 s and advances by one tick at
    each reading. *)
Definition clock0 : Clock :=
  {| readings := fun n => 1700000000000000 + Z.of_nat n; reads := 0 |}.

(** A clock that has advanced by one hour. *)
Definition clock1 : Clock :=
  {| readings := fun n => 1700003600000000 + Z.of_nat n; reads := 0 |}.

(** * Properties *)

(** ** Dictionaries *)

Section DictFacts.
Context {V : Type}.
Implicit Types (d : dict V) (k : string) (v : V).

Lemma dict_get_set_eq k v d : dict_get k (dict_set k v d) = Some v.
Proof.
  induction d as [|[k' v'] d IH]; simpl.
  - now rewrite String.eqb_refl.
  - destruct (String.eqb k k') eqn:E; simpl; rewrite E; auto.
Qed.

Lemma dict_get_set_neq k k' v d :
  k <> k' -> dict_get k' (dict_set k v d) = dict_get k' d.
Proof.
  intros Hne. induction d as [|[k1 v1] d IH]; simpl.
  - destruct (String.eqb k' k) eqn:E; auto.
    apply String.eqb_eq in E. congruence.
  - destruct (String.eqb k k1) eqn:E; simpl.
    + apply String.eqb_eq in E. subst k1.
      destruct (String.eqb k' k) eqn:E'; auto.
      apply String.eqb_eq in E'. congruence.
    + now rewrite IH.
Qed.

Lemma dict_get_None_notin k d :
  dict_get k d = None <-> ~ In k (dict_keys d).
Proof.
  induction d as [|[k' v'] d IH]; simpl.
  - tauto.
  - destruct (String.eqb k k') eqn:E.
    + apply String.eqb_eq in E. subst. split; [discriminate | tauto].
    + apply String.eqb_neq in E. rewrite IH. split; intros H.
      * intros [H1|H1]; [congruence | tauto].
      * tauto.
Qed.

Lemma dict_get_Some_in k v d : dict_get k d = Some v -> In (k, v) d.
Proof.
  induction d as [|[k' v'] d IH]; simpl; [discriminate|].
  destruct (String.eqb k k') eqn:E.
  - apply String.eqb_eq in E. intros [= ->]. subst. now left.
  - auto.
Qed.

Lemma dict_in_get k v d :
  NoDup (dict_keys d) -> In (k, v) d -> dict_get k d = Some v.
Proof.
  induction d as [|[k' v'] d IH]; simpl; [tauto|].
  intros Hnd [Heq|Hin].
  - injection Heq as -> ->. now rewrite String.eqb_refl.
  - inversion Hnd as [|? ? Hnotin Hnd']; subst.
    destruct (String.eqb k k') eqn:E.
    + apply String.eqb_eq in E. subst k'. exfalso. apply Hnotin.
      change k with (fst (k, v)). now apply in_map.
    + auto.
Qed.

Lemma dict_mem_in k d : dict_mem k d = true <-> In k (dict_keys d).
Proof.
  unfold dict_mem. destruct (dict_get k d) eqn:E.
  - split; [intros _ | reflexivity].
    apply dict_get_Some_in in E. change k with (fst (k, v)).
    now apply in_map.
  - split; [discriminate|]. intros H.
    now apply dict_get_None_notin in E.
Qed.

(** Assigning to a key keeps the keys that are there, in their order,
    and puts a new key at the end. *)
Lemma dict_keys_set k v d :
  dict_keys (dict_set k v d) =
  if dict_mem k d then dict_keys d else (dict_keys d ++ [k])%list.
Proof.
  unfold dict_mem. induction d as [|[k' v'] d IH]; simpl; auto.
  destruct (String.eqb k k') eqn:E; simpl; auto.
  rewrite IH. now destruct (dict_get k d).
Qed.

Lemma dict_keys_set_in k k' v d :
  In k' (dict_keys (dict_set k v d)) <-> k' = k \/ In k' (dict_keys d).
Proof.
  rewrite dict_keys_set. destruct (dict_mem k d) eqn:E.
  - apply dict_mem_in in E. split; [tauto|]. intros [->|H]; auto.
  - rewrite in_app_iff. simpl. intuition.
Qed.

Lemma dict_set_NoDup k v d :
  NoDup (dict_keys d) -> NoDup (dict_keys (dict_set k v d)).
Proof.
  intros Hnd. rewrite dict_keys_set. destruct (dict_mem k d) eqn:E; auto.
  apply NoDup_app; auto.
  - repeat constructor. simpl. tauto.
  - intros x Hx [<-|[]].
    apply dict_mem_in in Hx. congruence.
Qed.
End DictFacts.

Lemma str_in_In x l : str_in x l = true <-> In x l.
Proof.
  unfold str_in. rewrite existsb_exists. split.
  - intros (y & Hy & E). apply String.eqb_eq in E. now subst.
  - intros H. exists x. split; auto. apply String.eqb_refl.
Qed.

(** ** The sort by decreasing key *)

Section SortedReverseFacts.
Context {A : Type} (key : A -> Z).

(** [x] comes before [y] in a list sorted with [reverse=True]. *)
Definition before (x y : A) : Prop := key y <= key x.

Lemma insert_reverse_perm x l : Permutation (x :: l) (insert_reverse key x l).
Proof.
  induction l as [|y l IH]; simpl; auto.
  destruct (key x <? key y); auto.
  eapply perm_trans; [apply perm_swap|]. now constructor.
Qed.

Lemma sorted_reverse_perm l : Permutation l (sorted_reverse key l).
Proof.
  induction l as [|x l IH]; simpl; auto.
  eapply perm_trans; [|apply insert_reverse_perm]. now constructor.
Qed.

Lemma sorted_reverse_In x l : In x (sorted_reverse key l) <-> In x l.
Proof.
  split; apply Permutation_in;
    [apply Permutation_sym|]; apply sorted_reverse_perm.
Qed.

Lemma insert_reverse_sorted x l :
  StronglySorted before l -> StronglySorted before (insert_reverse key x l).
Proof.
  induction l as [|y l IH]; simpl; intros Hs.
  - repeat constructor.
  - inversion Hs as [|? ? Hs' Hy]; subst.
    destruct (key x <? key y) eqn:E.
    + apply Z.ltb_lt in E. constructor; auto.
      apply Forall_forall. intros z Hz.
      apply (Permutation_in _ (Permutation_sym (insert_reverse_perm x l)))
        in Hz.
      destruct Hz as [<-|Hz].
      * unfold before. lia.
      * rewrite Forall_forall in Hy. auto.
    + apply Z.ltb_ge in E. constructor; auto.
      constructor; [exact E|].
      rewrite Forall_forall in *. intros z Hz.
      specialize (Hy z Hz). unfold before in *. lia.
Qed.

Lemma sorted_reverse_sorted l : StronglySorted before (sorted_reverse key l).
Proof.
  induction l as [|x l IH]; simpl.
  - constructor.
  - now apply insert_reverse_sorted.
Qed.

Lemma sorted_reverse_NoDup l : NoDup l -> NoDup (sorted_reverse key l).
Proof.
  intros H. eapply Permutation_NoDup; [apply sorted_reverse_perm | exact H].
Qed.
End SortedReverseFacts.

(** ** [filter_functions] *)

(** The time of the last recorded call of [name], as [filter_functions]
    takes it: 0 when no call was recorded. *)
Definition last_call_time (self : FunctionRegistry) (name : string) : time :=
  dict_get_default name (_last_called self) 0.

(** Every key of [context_requirements] is a key of the context. *)
Definition context_met (context : dict value) (schema : FunctionSchema.t)
  : Prop :=
  Forall (fun req => In req (dict_keys context))
    (FunctionSchema.context_requirements schema).

Lemma is_available_iff self context name schema now :
  is_available self context name schema now = true <->
  context_met context schema /\
  FunctionSchema.cooldown schema <= now - last_call_time self name.
Proof.
  unfold is_available, context_met, last_call_time.
  rewrite andb_true_iff, forallb_forall, Forall_forall, Z.leb_le.
  split; intros [H1 H2]; split; auto; intros req Hreq;
    apply dict_mem_in; auto.
Qed.

Lemma filter_loop_reads self context items c :
  reads (snd (filter_loop self context items c)) =
  (reads c + List.length items)%nat.
Proof.
  revert c. induction items as [|[name schema] items IH]; intros c; simpl.
  - lia.
  - destruct (filter_loop self context items _) as [available c2] eqn:E.
    simpl. change c2 with (snd (available, c2)). rewrite <- E, IH. simpl. lia.
Qed.

Lemma filter_loop_readings self context items c :
  readings (snd (filter_loop self context items c)) = readings c.
Proof.
  revert c. induction items as [|[name schema] items IH]; intros c; simpl.
  - reflexivity.
  - destruct (filter_loop self context items _) as [available c2] eqn:E.
    simpl. change c2 with (snd (available, c2)). now rewrite <- E, IH.
Qed.

(** The entry at position [i] is tested at the reading number
    [reads c + i]. *)
Lemma filter_loop_In self context items c name :
  In name (fst (filter_loop self context items c)) <->
  exists i schema,
    nth_error items i = Some (name, schema) /\
    is_available self context name schema
      (readings c (reads c + i)%nat) = true.
Proof.
  revert c. induction items as [|[n s] items IH]; intros c; simpl.
  - split; [tauto|]. intros (i & schema & H & _). now destruct i.
  - destruct (filter_loop self context items _) as [available c2] eqn:E.
    assert (IH' := IH {| readings := readings c; reads := S (reads c) |}).
    rewrite E in IH'. simpl in IH'. simpl.
    split.
    + destruct (is_available self context n s (readings c (reads c))) eqn:Ha.
      * intros [<-|Hin].
        -- exists 0%nat, s. rewrite Nat.add_0_r. auto.
        -- apply IH' in Hin. destruct Hin as (i & schema & Hn & Hav).
           exists (S i), schema. split; auto.
           now replace (reads c + S i)%nat with (S (reads c) + i)%nat by lia.
      * intros Hin. apply IH' in Hin. destruct Hin as (i & schema & Hn & Hav).
        exists (S i), schema. split; auto.
        now replace (reads c + S i)%nat with (S (reads c) + i)%nat by lia.
    + intros (i & schema & Hn & Hav). destruct i as [|i]; simpl in Hn.
      * injection Hn as -> ->. rewrite Nat.add_0_r in Hav. rewrite Hav.
        now left.
      * assert (In name available) as Hin.
        { apply IH'. exists i, schema. split; auto.
          match goal with
          | |- context [readings c ?x] =>
              now replace x with (reads c + S i)%nat by lia
          end. }
        destruct (is_available self context n s _); simpl; auto.
Qed.

(** The names come out of the loop in the order of [_schemas]. *)
Lemma filter_loop_NoDup self context items c :
  NoDup (dict_keys items) ->
  NoDup (fst (filter_loop self context items c)).
Proof.
  revert c. induction items as [|[n s] items IH]; intros c Hnd; simpl.
  - constructor.
  - inversion Hnd as [|? ? Hnotin Hnd']; subst.
    destruct (filter_loop self context items _) as [available c2] eqn:E.
    assert (IH' := IH {| readings := readings c; reads := S (reads c) |} Hnd').
    assert (Hin := filter_loop_In self context items
                     {| readings := readings c; reads := S (reads c) |} n).
    rewrite E in IH', Hin. simpl in *.
    destruct (is_available self context n s _); simpl; auto.
    constructor; auto. intros H. apply Hin in H.
    destruct H as (i & schema & Hn & _). apply Hnotin.
    apply nth_error_In in Hn. change n with (fst (n, schema)).
    now apply in_map.
Qed.

Lemma filter_functions_In self context c name :
  In name (fst (filter_functions self context c)) <->
  exists i schema,
    nth_error (_schemas self) i = Some (name, schema) /\
    context_met context schema /\
    FunctionSchema.cooldown schema
    <= readings c (reads c + i)%nat - last_call_time self name.
Proof.
  unfold filter_functions.
  destruct (filter_loop self context (_schemas self) c)
    as [available c'] eqn:E.
  cbn [fst]. rewrite sorted_reverse_In.
  change available with (fst (available, c')). rewrite <- E.
  rewrite filter_loop_In.
  split; intros (i & schema & Hn & Hav); exists i, schema; split; auto;
    now apply is_available_iff.
Qed.

Lemma filter_functions_NoDup self context c :
  NoDup (dict_keys (_schemas self)) ->
  NoDup (fst (filter_functions self context c)).
Proof.
  intros Hnd. unfold filter_functions.
  destruct (filter_loop self context (_schemas self) c)
    as [available c'] eqn:E.
  cbn [fst]. apply sorted_reverse_NoDup.
  change available with (fst (available, c')). rewrite <- E.
  now apply filter_loop_NoDup.
Qed.

Lemma filter_functions_sorted self context c :
  StronglySorted (before (priority_of self))
    (fst (filter_functions self context c)).
Proof.
  unfold filter_functions.
  destruct (filter_loop self context (_schemas self) c) as [available c'].
  apply sorted_reverse_sorted.
Qed.

(** C1, as the program has it.  [filter_functions] returns exactly the
    names of the registered callables for which every key of
    [context_requirements] is a key of the context and the time since
    the last recorded call, counted from time 0 when no call was
    recorded and read from the clock anew for each callable, is at
    least [cooldown]; each name comes once; the names are in the order
    of non-increasing priority; and a registered callable with an unmet
    context requirement is not among them. *)
Theorem filter_functions_spec self context c :
  NoDup (dict_keys (_schemas self)) ->
  let names := fst (filter_functions self context c) in
  (forall name,
      In name names <->
      exists i schema,
        nth_error (_schemas self) i = Some (name, schema) /\
        context_met context schema /\
        FunctionSchema.cooldown schema
        <= readings c (reads c + i)%nat - last_call_time self name) /\
  NoDup names /\
  StronglySorted (before (priority_of self)) names /\
  (forall name schema,
      In (name, schema) (_schemas self) ->
      ~ context_met context schema -> ~ In name names).
Proof.
  intros Hnd names. subst names.
  split; [apply filter_functions_In|].
  split; [now apply filter_functions_NoDup|].
  split; [apply filter_functions_sorted|].
  intros name schema Hreg Hunmet Hname.
  apply filter_functions_In in Hname.
  destruct Hname as (i & schema' & Hn & Hmet & _).
  apply nth_error_In in Hn.
  apply (dict_in_get _ _ _ Hnd) in Hn, Hreg. congruence.
Qed.

(** A registry with two callables, [ping] with a cool-down of ten
    seconds. *)
Definition registry_add_ping : FunctionRegistry :=
  register (register new_registry add None None 5 0)
    ping None None 7 10000000.

Lemma filter_functions_spec_witness :
  NoDup (dict_keys (_schemas registry_add_ping)) /\
  let self := registry_add_ping in
  let names := fst (filter_functions self [] clock0) in
  (forall name,
      In name names <->
      exists i schema,
        nth_error (_schemas self) i = Some (name, schema) /\
        context_met [] schema /\
        FunctionSchema.cooldown schema
        <= readings clock0 (reads clock0 + i)%nat - last_call_time self name) /\
  NoDup names /\
  StronglySorted (before (priority_of self)) names /\
  (forall name schema,
      In (name, schema) (_schemas self) ->
      ~ context_met [] schema -> ~ In name names).
Proof.
  assert (H : NoDup (dict_keys (_schemas registry_add_ping))).
  { repeat constructor; simpl; intuition discriminate. }
  split; [exact H|].
  exact (filter_functions_spec registry_add_ping [] clock0 H).
Defined.

(** C1 as it is stated fails: a callable that was never invoked, with no
    context requirement, is left out when its cool-down is longer than
    the time on the clock. *)
Lemma never_invoked_not_always_eligible :
  let self := register new_registry ping None None 5 2000000000000000 in
  (exists schema,
      dict_get "ping" (_schemas self) = Some schema /\
      context_met [] schema) /\
  dict_get "ping" (_last_called self) = None /\
  ~ In "ping" (fst (filter_functions self [] clock0)).
Proof.
  simpl. repeat split.
  - eexists. split; [reflexivity|]. constructor.
  - vm_compute. tauto.
Qed.

(** ** The registration record *)

Definition registered (self : FunctionRegistry) (name : string) : Prop :=
  In name (dict_keys (_functions self)) /\
  In name (dict_keys (_schemas self)) /\
  In name (dict_keys (_call_count self)).

Definition call_count (self : FunctionRegistry) (name : string) : Z :=
  dict_get_default name (_call_count self) 0.

Lemma register_registered self func name description priority cooldown n :
  registered self n ->
  registered (register self func name description priority cooldown) n.
Proof.
  unfold registered, register. simpl.
  rewrite !dict_keys_set_in. tauto.
Qed.

Lemma register_registers self func name description priority cooldown :
  registered (register self func name description priority cooldown)
    (str_or name (fn_name func)).
Proof.
  unfold registered, register. simpl.
  rewrite !dict_keys_set_in. tauto.
Qed.

Lemma register_call_count self func name description priority cooldown n :
  call_count (register self func name description priority cooldown) n =
  if String.eqb (str_or name (fn_name func)) n then 0 else call_count self n.
Proof.
  unfold call_count, dict_get_default, register. simpl.
  destruct (String.eqb _ n) eqn:E.
  - apply String.eqb_eq in E. subst n. now rewrite dict_get_set_eq.
  - apply String.eqb_neq in E. now rewrite dict_get_set_neq.
Qed.

Lemma log_call_registered self name c n :
  registered self n -> registered (fst (log_call self name c)) n.
Proof.
  unfold registered, log_call. simpl.
  rewrite !dict_keys_set_in. tauto.
Qed.

Lemma log_call_call_count self name c n :
  call_count (fst (log_call self name c)) n =
  if String.eqb name n then call_count self n + 1 else call_count self n.
Proof.
  unfold call_count, dict_get_default, log_call. simpl.
  destruct (String.eqb name n) eqn:E.
  - apply String.eqb_eq in E. subst n. now rewrite dict_get_set_eq.
  - apply String.eqb_neq in E. now rewrite dict_get_set_neq.
Qed.

Lemma log_call_last_called self name c :
  dict_get name (_last_called (fst (log_call self name c))) =
  Some (readings c (reads c)).
Proof. unfold log_call. simpl. apply dict_get_set_eq. Qed.

Lemma registry_step_registered st op n :
  registered (fst st) n -> registered (fst (registry_step st op)) n.
Proof.
  destruct st as [self c]. destruct op; cbn [registry_step fst]; auto.
  - apply register_registered.
  - apply log_call_registered.
Qed.

Lemma registry_step_call_count st op n :
  registers op <> Some n ->
  call_count (fst st) n <= call_count (fst (registry_step st op)) n.
Proof.
  destruct st as [self c].
  destruct op; cbn [registry_step registers fst]; intros Hop; try lia.
  - rewrite register_call_count.
    destruct (String.eqb _ n) eqn:E; [|lia].
    apply String.eqb_eq in E. congruence.
  - rewrite log_call_call_count. destruct (String.eqb name n); lia.
Qed.

(** C8, as the program has it.  Whatever operations follow, a registered
    name stays registered: no operation removes its callable, its schema
    or its counter.  Its call counter does not decrease as long as the
    name is not registered again; each recorded call adds one to it, and
    a new registration of the name sets it back to 0. *)
Theorem registration_record_kept ops self c name :
  registered self name ->
  let self' := fst (registry_run ops (self, c)) in
  registered self' name /\
  (Forall (fun op => registers op <> Some name) ops ->
   call_count self name <= call_count self' name) /\
  (forall c', call_count (fst (log_call self' name c')) name
              = call_count self' name + 1) /\
  (forall func n description priority cooldown,
      str_or n (fn_name func) = name ->
      call_count (register self' func n description priority cooldown) name
      = 0).
Proof.
  intros Hreg. cbv zeta.
  assert (H : registered (fst (registry_run ops (self, c))) name /\
              (Forall (fun op => registers op <> Some name) ops ->
               call_count self name
               <= call_count (fst (registry_run ops (self, c))) name)).
  { unfold registry_run.
    change self with (fst (self, c)) in Hreg.
    change (call_count self name) with (call_count (fst (self, c)) name).
    generalize dependent (self, c). clear self c.
    induction ops as [|op ops IH]; intros st Hreg; simpl.
    - split; auto. intros _. lia.
    - destruct (IH (registry_step st op)
                  (registry_step_registered st op name Hreg)) as [H1 H2].
      split; auto. intros Hall. inversion Hall as [|? ? Hop Hall']; subst.
      specialize (H2 Hall').
      pose proof (registry_step_call_count st op name Hop). lia. }
  destruct H as [H1 H2].
  split; [exact H1|]. split; [exact H2|]. split.
  - intros c'. rewrite log_call_call_count. now rewrite String.eqb_refl.
  - intros func n description priority cooldown Hn.
    rewrite register_call_count, Hn. now rewrite String.eqb_refl.
Qed.

Lemma registration_record_kept_witness :
  registered registry_add_ping "ping" /\
  let ops := [Op_log_call "ping"; Op_filter_functions [];
              Op_register add None None 5 0; Op_log_call "ping"] in
  let self' := fst (registry_run ops (registry_add_ping, clock0)) in
  registered self' "ping" /\
  (Forall (fun op => registers op <> Some "ping") ops ->
   call_count registry_add_ping "ping" <= call_count self' "ping") /\
  (forall c', call_count (fst (log_call self' "ping" c')) "ping"
              = call_count self' "ping" + 1) /\
  (forall func n description priority cooldown,
      str_or n (fn_name func) = "ping" ->
      call_count (register self' func n description priority cooldown) "ping"
      = 0).
Proof.
  assert (H : registered registry_add_ping "ping").
  { unfold registered. simpl. tauto. }
  split; [exact H|].
  exact (registration_record_kept _ registry_add_ping clock0 "ping" H).
Defined.

(** C8 as it is stated fails: registering a name again takes its call
    counter from 1 back to 0. *)
Lemma call_count_decreases :
  let st1 := registry_run [Op_register ping None None 5 0;
                           Op_log_call "ping"] (new_registry, clock0) in
  let st2 := registry_run [Op_register ping None None 5 0] st1 in
  call_count (fst st1) "ping" = 1 /\
  call_count (fst st2) "ping" = 0 /\
  call_count (fst st2) "ping" < call_count (fst st1) "ping".
Proof. vm_compute. repeat split. Qed.

(** ** [build_parameters] raises ordinary exceptions only *)

Lemma bind_Raise {A B : Type} (r : result A) (k : A -> result B) e :
  bind r k = Raise e ->
  r = Raise e \/ exists a, r = Ok a /\ k a = Raise e.
Proof.
  destruct r as [a|e']; simpl; intros H.
  - right. exists a. auto.
  - left. now injection H as ->.
Qed.

Lemma check_required_is_Exception required params_data e :
  check_required required params_data = Raise e -> is_Exception e = true.
Proof.
  induction required as [|r required IH]; simpl; [discriminate|].
  destruct params_data; simpl; try (intros [= <-]; reflexivity);
    match goal with
    | |- (if ?b then _ else _) = _ -> _ =>
        destruct b; auto; intros [= <-]; reflexivity
    end.
Qed.

Lemma field_type_is_Exception prop e :
  field_type prop = Raise e -> is_Exception e = true.
Proof.
  destruct prop; simpl; try (intros [= <-]; reflexivity).
  destruct (dict_get "type" d) as [[]|]; intros [= <-]; reflexivity.
Qed.

Lemma field_definitions_is_Exception required properties acc e :
  field_definitions required properties acc = Raise e ->
  is_Exception e = true.
Proof.
  revert acc. induction properties as [|[n prop] properties IH];
    intros acc; simpl; [discriminate|].
  intros H. apply bind_Raise in H. destruct H as [H|(t & _ & H)].
  - eapply field_type_is_Exception; eauto.
  - eapply IH; eauto.
Qed.

Lemma build_parameters_is_Exception registry function_name params_data e :
  build_parameters registry function_name params_data = Raise e ->
  is_Exception e = true.
Proof.
  unfold build_parameters.
  destruct (get_schema registry function_name) as [schema|];
    [|intros [= <-]; reflexivity].
  intros H. apply bind_Raise in H. destruct H as [H|(_ & _ & H)].
  { eapply check_required_is_Exception; eauto. }
  apply bind_Raise in H. destruct H as [H|(properties & _ & H)].
  { unfold get_properties in H.
    destruct (dict_get "properties" _) as [[]|]; try discriminate;
      injection H as <-; reflexivity. }
  apply bind_Raise in H. destruct H as [H|(fds & _ & H)].
  { eapply field_definitions_is_Exception; eauto. }
  destruct params_data; try (injection H as <-; reflexivity).
  destruct (Pydantic.validate_model _ fds d); [discriminate|].
  injection H as <-. reflexivity.
Qed.

(** ** [execute_function_call] *)

(** The conditions under which [execute_function_call] reaches its [try]
    block for the callable [func] registered as [n], and the clock at
    that moment. *)
Definition dispatched (self : SmartCaller) (call_data : CallRequest)
    (context : option (dict value)) (c : Clock) (n : string)
    (func : Callable) : Prop :=
  call_name call_data = Some n /\
  get_function (registry self) n = Some func /\
  In n (fst (filter_functions (registry self) (context_or_empty context) c)).

Definition clock_at_try (self : SmartCaller) (context : option (dict value))
    (c : Clock) : Clock :=
  snd (filter_functions (registry self) (context_or_empty context) c).

Lemma execute_function_call_dispatched self call_data context c n func :
  dispatched self call_data context c n func ->
  execute_function_call self call_data context c =
  try_call self n func (decode_arguments call_data)
    (clock_at_try self context c).
Proof.
  intros (Hname & Hfunc & Hin). unfold execute_function_call, clock_at_try.
  rewrite Hname, Hfunc. cbn [option_map].
  destruct (filter_functions _ _ c) as [available c'] eqn:E.
  cbn [fst snd] in *. apply str_in_In in Hin. now rewrite Hin.
Qed.

Lemma try_call_registry self n func function_args c :
  registry (snd (fst (try_call self n func function_args c))) =
  match build_parameters (registry self) n function_args with
  | Ok _ => fst (log_call (registry self) n c)
  | Raise _ => registry self
  end.
Proof.
  unfold try_call.
  destruct (build_parameters _ n _) as [validated|e].
  - destruct (log_call _ n c) as [registry' c1]. cbn [fst].
    destruct (time_time c1) as [start_time c2].
    destruct (call_function func validated) as [result|e].
    + destruct (time_time c2). reflexivity.
    + destruct (is_Exception e); reflexivity.
  - destruct (is_Exception e); reflexivity.
Qed.

Lemma try_call_invalid self n func function_args c e :
  build_parameters (registry self) n function_args = Raise e ->
  fst (fst (try_call self n func function_args c))
  = Returned (failure (exn_str e)).
Proof.
  intros Hb. unfold try_call. rewrite Hb.
  now rewrite (build_parameters_is_Exception _ _ _ _ Hb).
Qed.


(** C2, as the program has it.  In a dispatch of a known and eligible
    callable the parameters are validated first.  When the validation
    fails nothing is recorded: the registry is unchanged and the
    response is the failure.  When it succeeds the call is recorded
    before the callable runs, with the time read at that moment and the
    counter one higher, whether the callable then returns or raises. *)
Theorem invocation_recorded_after_validation
    self call_data context c n func :
  dispatched self call_data context c n func ->
  let c1 := clock_at_try self context c in
  let out := execute_function_call self call_data context c in
  let self' := snd (fst out) in
  match build_parameters (registry self) n (decode_arguments call_data) with
  | Raise e =>
      registry self' = registry self /\
      fst (fst out) = Returned (failure (exn_str e))
  | Ok validated_params =>
      registry self' = fst (log_call (registry self) n c1) /\
      dict_get n (_last_called (registry self'))
      = Some (readings c1 (reads c1)) /\
      call_count (registry self') n = call_count (registry self) n + 1
  end.
Proof.
  intros Hd. cbv zeta.
  rewrite (execute_function_call_dispatched _ _ _ _ _ _ Hd).
  rewrite try_call_registry.
  destruct (build_parameters _ n _) as [validated|e] eqn:Hb.
  - split; [reflexivity|]. split.
    + apply log_call_last_called.
    + rewrite log_call_call_count. now rewrite String.eqb_refl.
  - split; [reflexivity|]. now apply try_call_invalid.
Qed.

(** An instance with four callables. *)
Definition caller0 : SmartCaller :=
  register_function
    (register_function
       (register_function
          (register_function new_smart_caller add None None 5 0)
          ping None None 7 10000000)
       boom None None 5 0)
    leave None None 5 0.

Definition request (name : string) (arguments : option value) : CallRequest :=
  {| call_name := Some name; call_arguments := arguments |}.

Lemma caller0_dispatched name func arguments :
  get_function (registry caller0) name = Some func ->
  dispatched caller0 (request name arguments) None clock0 name func.
Proof.
  intros H. split; [reflexivity|]. split; [exact H|].
  apply dict_get_Some_in in H. vm_compute. vm_compute in H.
  intuition congruence.
Qed.

Lemma invocation_recorded_after_validation_witness :
  dispatched caller0 (request "boom" None) None clock0 "boom" boom /\
  let c1 := clock_at_try caller0 None clock0 in
  let out := execute_function_call caller0 (request "boom" None) None clock0 in
  let self' := snd (fst out) in
  match build_parameters (registry caller0) "boom"
          (decode_arguments (request "boom" None)) with
  | Raise e =>
      registry self' = registry caller0 /\
      fst (fst out) = Returned (failure (exn_str e))
  | Ok validated_params =>
      registry self' = fst (log_call (registry caller0) "boom" c1) /\
      dict_get "boom" (_last_called (registry self'))
      = Some (readings c1 (reads c1)) /\
      call_count (registry self') "boom"
      = call_count (registry caller0) "boom" + 1
  end.
Proof.
  assert (H : dispatched caller0 (request "boom" None) None clock0
                "boom" boom)
    by (apply caller0_dispatched; reflexivity).
  split; [exact H|].
  exact (invocation_recorded_after_validation _ _ _ _ _ _ H).
Defined.

(** C2 as it is stated fails: a dispatch of a known and eligible
    callable whose parameters are not valid records nothing, so the
    cool-down is not consumed. *)
Lemma invalid_parameters_not_recorded :
  let call_data := request "add" (Some (VDict [])) in
  let out := execute_function_call caller0 call_data None clock0 in
  let registry' := registry (snd (fst out)) in
  dispatched caller0 call_data None clock0 "add" add /\
  fst (fst out) = Returned (failure "Missing required parameter: a") /\
  dict_get "add" (_last_called registry') = None /\
  call_count registry' "add" = 0.
Proof.
  cbv zeta. split; [apply caller0_dispatched; reflexivity|].
  vm_compute. auto.
Qed.

(** The two shapes of a response. *)
Definition is_success (response : dict value) : Prop :=
  dict_mem "result" response = true /\
  dict_mem "execution_time" response = true /\
  dict_mem "error" response = false /\
  dict_get "success" response = Some (VBool true).




(** Either the request does not reach the [try] block and a failure is
    returned, or it is dispatched to a callable. *)
Lemma execute_function_call_cases self call_data context c :
  (exists message,
      execute_function_call self call_data context c
      = (Returned (failure message), self,
         match call_name call_data with
         | Some n =>
             match get_function (registry self) n with
             | Some _ => clock_at_try self context c
             | None => c
             end
         | None => c
         end)) \/
  (exists n func, dispatched self call_data context c n func).
Proof.
  unfold execute_function_call, dispatched, clock_at_try.
  destruct (call_name call_data) as [n|]; [|left; eauto].
  destruct (get_function (registry self) n) as [func|] eqn:Hf;
    cbn [option_map]; [|left; eauto].
  destruct (filter_functions _ _ c) as [available c'] eqn:E. cbn [fst snd].
  destruct (str_in n available) eqn:Hin; cbn [negb].
  - right. exists n, func. split; [reflexivity|]. split; [exact Hf|].
    now apply str_in_In.
  - left. eauto.
Qed.








(** ** [build_parameters] *)

Lemma dict_set_new {V : Type} k (v : V) d :
  ~ In k (dict_keys d) -> dict_set k v d = (d ++ [(k, v)])%list.
Proof.
  induction d as [|[k' v'] d IH]; simpl; auto.
  intros H. destruct (String.eqb k k') eqn:E.
  - apply String.eqb_eq in E. subst k'. exfalso. apply H. now left.
  - rewrite IH; [reflexivity|]. intros H'. apply H. now right.
Qed.

(** The Python type [build_parameters] gives to a property. *)
Definition python_type (prop : value) : Pydantic.pytype :=
  match field_type prop with Ok t => t | Raise _ => Pydantic.Tstr end.

(** A schema as [register] makes them: [properties] is a dictionary of
    dictionaries whose type tags are strings, and the required
    parameters are among the properties. *)
Definition schema_wf (schema : FunctionSchema.t) (properties : dict value)
  : Prop :=
  get_properties schema = Ok properties /\
  NoDup (dict_keys properties) /\
  Forall (fun p => exists t, field_type (snd p) = Ok t) properties /\
  incl (FunctionSchema.required_params schema) (dict_keys properties).

















(** ** Validating the result of a validation *)








(** ** The schemas [register] makes *)

Lemma dict_set_In {V : Type} k (v : V) d k' v' :
  In (k', v') (dict_set k v d) -> (k' = k /\ v' = v) \/ In (k', v') d.
Proof.
  induction d as [|[k1 v1] d IH]; simpl.
  - intros [[= <- <-]|[]]. auto.
  - destruct (String.eqb k k1) eqn:E; simpl.
    + apply String.eqb_eq in E. subst k1.
      intros [[= <- <-]|H]; auto.
    + intros [H|H]; auto. apply IH in H. tauto.
Qed.

Lemma register_param_field_type p :
  exists t,
    field_type
      (VDict (dict_set "description" (VStr ("Parameter " ++ param_name p))
                match param_annotation p with
                | None => [("type", VStr "string")]
                | Some a => _get_type_schema a
                end))
    = Ok t.
Proof.
  destruct (param_annotation p) as [[]|]; simpl; eauto.
Qed.

(** What the loop over the signature keeps true of the properties and
    of the required parameters it has collected. *)
Definition params_ok (acc : dict value * list string) : Prop :=
  NoDup (dict_keys (fst acc)) /\
  Forall (fun p => exists t, field_type (snd p) = Ok t) (fst acc) /\
  incl (snd acc) (dict_keys (fst acc)).

Lemma register_param_ok acc p : params_ok acc -> params_ok (register_param acc p).
Proof.
  destruct acc as [params required]. unfold params_ok, register_param.
  cbn [fst snd]. intros (Hnd & Hty & Hincl). split; [|split].
  - now apply dict_set_NoDup.
  - apply Forall_forall. intros [k' v'] Hin.
    apply dict_set_In in Hin. destruct Hin as [[-> ->]|Hin].
    + apply register_param_field_type.
    + rewrite Forall_forall in Hty. now apply (Hty (k', v')).
  - assert (Hold : incl required
                     (dict_keys (dict_set (param_name p)
                        (VDict (dict_set "description"
                                  (VStr ("Parameter " ++ param_name p))
                                  match param_annotation p with
                                  | None => [("type", VStr "string")]
                                  | Some a => _get_type_schema a
                                  end)) params))).
    { intros r Hr. apply dict_keys_set_in. right. now apply Hincl. }
    destruct (param_has_default p); auto.
    intros r Hr. apply in_app_or in Hr. destruct Hr as [Hr|[<-|[]]].
    + now apply Hold.
    + apply dict_keys_set_in. now left.
Qed.

Lemma fold_register_param_ok sig acc :
  params_ok acc -> params_ok (fold_left register_param sig acc).
Proof.
  revert acc. induction sig as [|p sig IH]; intros acc H; simpl; auto.
  apply IH. now apply register_param_ok.
Qed.

(** Every schema [register] makes is well formed. *)
Lemma make_schema_wf func name description priority cooldown :
  exists properties,
    schema_wf (make_schema func name description priority cooldown)
      properties.
Proof.
  unfold make_schema.
  assert (H : params_ok (fold_left register_param (fn_signature func)
                           ([], []))).
  { apply fold_register_param_ok. repeat split; simpl; auto.
    - constructor.
    - intros r []. }
  destruct (fold_left register_param (fn_signature func) ([], []))
    as [params required].
  destruct H as (Hnd & Hty & Hincl). exists params.
  repeat split; auto.
Qed.






(** [def total(xs: List[int]): return sum(xs)] *)
Definition total : Callable :=
  {| fn_name := "total"; fn_doc := None;
     fn_signature := [{| param_name := "xs";
                         param_annotation := Some Ann_List_int;
                         param_has_default := false |}];
     fn_body := fun kwargs =>
       match dict_get "xs" kwargs with
       | Some (VList l) =>
           fold_right
             (fun x acc =>
                match x, acc with
                | VInt z, Returns (VInt a) => Returns (VInt (z + a))
                | _, Returns _ =>
                    Raises (Exn TypeError "unsupported operand type(s) for +")
                | _, Raises e => Raises e
                end)
             (Returns (VInt 0)) l
       | _ => Raises (Exn TypeError "object is not iterable")
       end |}.


(** The scenario of the specification: a string that is not a number,
    given for an integer parameter, makes the dispatch return the
    failure for invalid parameters. *)
Example non_numeric_string_refused :
  fst (fst (execute_function_call caller0
              (request "add" (Some (VDict [("a", VStr "x"); ("b", VInt 3)])))
              None clock0))
  = Returned
      (failure "Invalid parameters: validation errors for addParams: a").
Proof. vm_compute. reflexivity. Qed.



(** ** [prepare_for_llm] *)

(** The names of a list of descriptions, in the order of the list. *)
Definition desc_names (descs : list value) : list string :=
  flat_map (fun d => match desc_name d with Some n => [n] | None => [] end)
    descs.

(** The test [prepare_for_llm] applies to a description. *)
Definition is_offered (available_functions : list string) (desc : value)
  : bool :=
  match desc_name desc with
  | Some n => str_in n available_functions
  | None => false
  end.

Lemma desc_name_describe schema :
  desc_name (describe schema) = Some (FunctionSchema.name schema).
Proof. reflexivity. Qed.

Lemma desc_names_describe schemas :
  desc_names (map describe schemas) = map FunctionSchema.name schemas.
Proof.
  induction schemas as [|s schemas IH]; simpl; auto.
  now rewrite IH.
Qed.

Lemma filter_describe available schemas :
  filter (is_offered available) (map describe schemas)
  = map describe
      (filter (fun s => str_in (FunctionSchema.name s) available) schemas).
Proof.
  induction schemas as [|s schemas IH]; simpl; auto.
  unfold is_offered at 1. rewrite desc_name_describe.
  destruct (str_in (FunctionSchema.name s) available); simpl; now rewrite IH.
Qed.

Lemma map_filter_comm {A B : Type} (f : A -> B) (p : B -> bool) l :
  map f (filter (fun x => p (f x)) l) = filter p (map f l).
Proof.
  induction l as [|x l IH]; simpl; auto.
  destruct (p (f x)); simpl; now rewrite IH.
Qed.

Lemma desc_names_incl descs descs' :
  incl descs descs' -> incl (desc_names descs) (desc_names descs').
Proof.
  unfold desc_names. intros H n Hn. apply in_flat_map in Hn.
  destruct Hn as (d & Hd & Hn). apply in_flat_map. exists d. auto.
Qed.

Lemma prepare_for_llm_eq cache id self context c :
  prepare_for_llm cache id self context c =
  (filter (is_offered
             (fst (filter_functions (registry self)
                     (context_or_empty context) c)))
     (fst (get_function_descriptions cache id self)),
   snd (get_function_descriptions cache id self),
   snd (filter_functions (registry self) (context_or_empty context) c)).
Proof.
  unfold prepare_for_llm.
  destruct (filter_functions _ _ c) as [available c'].
  destruct (get_function_descriptions cache id self) as [descs cache'].
  reflexivity.
Qed.

Lemma lru_call_miss {V : Type} key (compute : V) cache :
  LruCache.lookup key cache = None ->
  fst (LruCache.call key compute cache) = compute.
Proof. unfold LruCache.call. now intros ->. Qed.

Lemma lru_call_hit {V : Type} key (compute v : V) cache :
  LruCache.lookup key cache = Some v ->
  fst (LruCache.call key compute cache) = v.
Proof. unfold LruCache.call. now intros ->. Qed.

(** The key of every entry of [_schemas] is the name of its schema, as
    [register] has it. *)
Definition names_match (self : FunctionRegistry) : Prop :=
  forall k s, In (k, s) (_schemas self) -> FunctionSchema.name s = k.

Lemma names_match_keys self :
  names_match self ->
  map FunctionSchema.name (get_all_schemas self) = dict_keys (_schemas self).
Proof.
  unfold names_match, get_all_schemas, dict_values, dict_keys.
  induction (_schemas self) as [|[k s] d IH]; intros H; simpl; auto.
  rewrite (H k s) by now left.
  rewrite IH; auto. intros k' s' Hin. apply H. now right.
Qed.

(** C3, as the program has it.  [prepare_for_llm] returns those of the
    descriptions given by [get_function_descriptions] whose name is in
    the list of [filter_functions], in the order of the descriptions.
    When the descriptions are computed at this call, these are the
    descriptions of exactly the names [filter_functions] returns, each
    once, in the order of registration and not in the order of
    priority. *)
Theorem prepare_for_llm_spec cache id self context c :
  NoDup (dict_keys (_schemas (registry self))) ->
  names_match (registry self) ->
  let descs := fst (fst (prepare_for_llm cache id self context c)) in
  let available :=
    fst (filter_functions (registry self) (context_or_empty context) c) in
  descs = filter (is_offered available)
            (fst (get_function_descriptions cache id self)) /\
  (LruCache.lookup id cache = None ->
   descs = map describe
             (filter (fun s => str_in (FunctionSchema.name s) available)
                (get_all_schemas (registry self))) /\
   desc_names descs
   = filter (fun n => str_in n available)
       (dict_keys (_schemas (registry self))) /\
   Permutation (desc_names descs) available).
Proof.
  intros Hnd Hnames. cbv zeta. rewrite prepare_for_llm_eq. cbn [fst].
  split; [reflexivity|]. intros Hmiss.
  unfold get_function_descriptions. rewrite (lru_call_miss _ _ _ Hmiss).
  unfold compute_function_descriptions. rewrite filter_describe.
  set (available := fst (filter_functions (registry self)
                           (context_or_empty context) c)).
  assert (Hn : desc_names
                 (map describe
                    (filter (fun s => str_in (FunctionSchema.name s) available)
                       (get_all_schemas (registry self))))
               = filter (fun n => str_in n available)
                   (dict_keys (_schemas (registry self)))).
  { rewrite desc_names_describe.
    rewrite (map_filter_comm FunctionSchema.name
               (fun n => str_in n available)).
    now rewrite names_match_keys. }
  split; [reflexivity|]. split; [exact Hn|].
  rewrite Hn.
  apply NoDup_Permutation.
  - now apply NoDup_filter.
  - now apply filter_functions_NoDup.
  - intros n. rewrite filter_In, str_in_In. split; [tauto|].
    intros Hav. split; auto. apply filter_functions_In in Hav.
    destruct Hav as (i & schema & Hnth & _). apply nth_error_In in Hnth.
    change n with (fst (n, schema)). now apply in_map.
Qed.

Lemma register_names_match self func name description priority cooldown :
  names_match self ->
  names_match (register self func name description priority cooldown).
Proof.
  unfold names_match, register. cbn [_schemas]. intros H k s Hin.
  apply dict_set_In in Hin. destruct Hin as [[-> ->]|Hin]; auto.
  unfold make_schema.
  now destruct (fold_left register_param (fn_signature func) ([], [])).
Qed.

Lemma register_schemas_NoDup self func name description priority cooldown :
  NoDup (dict_keys (_schemas self)) ->
  NoDup (dict_keys
           (_schemas (register self func name description priority cooldown))).
Proof. unfold register. cbn [_schemas]. apply dict_set_NoDup. Qed.

Lemma caller0_NoDup : NoDup (dict_keys (_schemas (registry caller0))).
Proof.
  unfold caller0, register_function. cbn [registry].
  repeat apply register_schemas_NoDup. constructor.
Qed.

Lemma caller0_names_match : names_match (registry caller0).
Proof.
  unfold caller0, register_function. cbn [registry].
  repeat apply register_names_match. intros k s [].
Qed.

Lemma prepare_for_llm_spec_witness :
  NoDup (dict_keys (_schemas (registry caller0))) /\
  names_match (registry caller0) /\
  let descs := fst (fst (prepare_for_llm [] 0 caller0 None clock0)) in
  let available :=
    fst (filter_functions (registry caller0) (context_or_empty None) clock0) in
  descs = filter (is_offered available)
            (fst (get_function_descriptions [] 0 caller0)) /\
  (LruCache.lookup 0 (@nil (nat * list value)) = None ->
   descs = map describe
             (filter (fun s => str_in (FunctionSchema.name s) available)
                (get_all_schemas (registry caller0))) /\
   desc_names descs
   = filter (fun n => str_in n available)
       (dict_keys (_schemas (registry caller0))) /\
   Permutation (desc_names descs) available).
Proof.
  split; [exact caller0_NoDup|]. split; [exact caller0_names_match|].
  exact (prepare_for_llm_spec [] 0 caller0 None clock0
           caller0_NoDup caller0_names_match).
Defined.

(** C3 as it is stated fails: the descriptions come in the order of
    registration, while [filter_functions] puts [ping], of priority 7,
    first. *)
Lemma prepare_for_llm_not_by_priority :
  desc_names (fst (fst (prepare_for_llm [] 0 caller0 None clock0)))
  = ["add"; "ping"; "boom"; "leave"] /\
  fst (filter_functions (registry caller0) [] clock0)
  = ["ping"; "add"; "boom"; "leave"].
Proof. vm_compute. auto. Qed.

(** ** The cache of [get_function_descriptions] *)

Section LruFacts.
Context {V : Type}.
Implicit Types (cache : LruCache.t V) (key id : nat).

Definition cache_keys cache : list nat := map fst cache.

Lemma lru_lookup_None key cache :
  LruCache.lookup key cache = None <-> ~ In key (cache_keys cache).
Proof.
  induction cache as [|[k v] cache IH]; simpl; [tauto|].
  destruct (Nat.eqb key k) eqn:E.
  - apply Nat.eqb_eq in E. subst k.
    split; [discriminate | intros H; exfalso; apply H; now left].
  - apply Nat.eqb_neq in E. rewrite IH. split; intros H.
    + intros [H'|H']; [congruence | tauto].
    + intros H'. apply H. now right.
Qed.

Lemma lru_remove_keys key cache :
  incl (cache_keys (LruCache.remove key cache)) (cache_keys cache).
Proof.
  induction cache as [|[k v] cache IH]; simpl; [apply incl_refl|].
  destruct (Nat.eqb key k).
  - apply incl_tl, incl_refl.
  - simpl. intros x [<-|Hx]; [now left | right; now apply IH].
Qed.

Lemma lru_remove_notin key cache :
  NoDup (cache_keys cache) ->
  ~ In key (cache_keys (LruCache.remove key cache)).
Proof.
  induction cache as [|[k v] cache IH]; simpl; [tauto|].
  intros Hnd. inversion Hnd as [|? ? Hnotin Hnd']; subst.
  destruct (Nat.eqb key k) eqn:E.
  - apply Nat.eqb_eq in E. now subst.
  - apply Nat.eqb_neq in E. simpl. intros [H|H]; [congruence|].
    now apply IH.
Qed.

Lemma lru_remove_NoDup key cache :
  NoDup (cache_keys cache) -> NoDup (cache_keys (LruCache.remove key cache)).
Proof.
  induction cache as [|[k v] cache IH]; simpl; auto.
  intros Hnd. inversion Hnd as [|? ? Hnotin Hnd']; subst.
  destruct (Nat.eqb key k); auto. simpl. constructor; auto.
  intros H. apply Hnotin. now apply (lru_remove_keys key).
Qed.

Lemma lru_lookup_remove key id cache :
  id <> key ->
  LruCache.lookup id (LruCache.remove key cache) = LruCache.lookup id cache.
Proof.
  intros Hne. induction cache as [|[k v] cache IH]; simpl; auto.
  destruct (Nat.eqb key k) eqn:E; simpl.
  - apply Nat.eqb_eq in E. subst k.
    destruct (Nat.eqb id key) eqn:E'; auto.
    apply Nat.eqb_eq in E'. congruence.
  - now rewrite IH.
Qed.

(** A call keeps the entry of [id] when the keys in use, [users], are
    no more than the cache can hold. *)
Lemma lru_call_keeps key compute cache id v (users : list nat) :
  NoDup (cache_keys cache) ->
  incl (cache_keys cache) users ->
  In key users ->
  (List.length (nodup Nat.eq_dec users) <= LruCache.maxsize)%nat ->
  LruCache.lookup id cache = Some v ->
  let cache' := snd (LruCache.call key compute cache) in
  NoDup (cache_keys cache') /\
  incl (cache_keys cache') users /\
  LruCache.lookup id cache' = Some v.
Proof.
  intros Hnd Hincl Hkey Hsize Hid. unfold LruCache.call.
  destruct (LruCache.lookup key cache) as [v0|] eqn:Hk; cbn [snd].
  - split; [|split].
    + simpl. constructor.
      * now apply lru_remove_notin.
      * now apply lru_remove_NoDup.
    + simpl. intros x [<-|Hx]; auto.
      apply Hincl. now apply (lru_remove_keys key).
    + simpl. destruct (Nat.eqb id key) eqn:E.
      * apply Nat.eqb_eq in E. subst key. congruence.
      * apply Nat.eqb_neq in E. now rewrite lru_lookup_remove.
  - apply lru_lookup_None in Hk.
    assert (Hlen : (S (List.length cache) <= LruCache.maxsize)%nat).
    { etransitivity; [|exact Hsize].
      replace (S (List.length cache))
        with (List.length (key :: cache_keys cache))
        by (unfold cache_keys; simpl; now rewrite length_map).
      apply NoDup_incl_length.
      - now constructor.
      - intros x Hx. apply nodup_In.
        destruct Hx as [<-|Hx]; auto. }
    rewrite firstn_all2 by (unfold LruCache.maxsize in *; lia).
    split; [|split].
    + simpl. now constructor.
    + simpl. intros x [<-|Hx]; auto.
    + simpl. destruct (Nat.eqb id key) eqn:E; auto.
      apply Nat.eqb_eq in E. subst key.
      apply lru_lookup_None in Hk. congruence.
Qed.

Lemma lru_call_caches key compute cache :
  LruCache.lookup key cache = None ->
  LruCache.lookup key (snd (LruCache.call key compute cache))
  = Some compute.
Proof.
  unfold LruCache.call. intros ->. simpl. now rewrite Nat.eqb_refl.
Qed.
End LruFacts.

(** What a sequence of operations keeps true of the cache. *)
Definition cache_inv (users : list nat) (id : nat) (v : list value)
    (w : World) : Prop :=
  NoDup (cache_keys (descriptions_cache w)) /\
  incl (cache_keys (descriptions_cache w)) users /\
  LruCache.lookup id (descriptions_cache w) = Some v.

Lemma step_cache_inv users id v st op :
  (List.length (nodup Nat.eq_dec users) <= LruCache.maxsize)%nat ->
  incl (cache_user op) users ->
  cache_inv users id v (fst st) ->
  cache_inv users id v (fst (step st op)).
Proof.
  intros Hsize Huser Hinv. destruct st as [w c]. cbn [fst] in Hinv.
  destruct Hinv as (Hnd & Hincl & Hid).
  destruct op as [|i func name description priority cooldown|i|i context
                  |i call_data context];
    cbn [step cache_user] in *.
  - now repeat split.
  - destruct (nth_error (instances w) i); now repeat split.
  - destruct (nth_error (instances w) i) as [self|]; [|now repeat split].
    cbn [fst descriptions_cache]. unfold get_function_descriptions.
    apply lru_call_keeps; auto. apply Huser. now left.
  - destruct (nth_error (instances w) i) as [self|]; [|now repeat split].
    rewrite prepare_for_llm_eq. cbn [fst descriptions_cache].
    unfold get_function_descriptions.
    apply lru_call_keeps; auto. apply Huser. now left.
  - destruct (nth_error (instances w) i) as [self|]; [|now repeat split].
    destruct (execute_function_call self call_data context c)
      as [[d self'] c'].
    now repeat split.
Qed.

Lemma run_cache_inv users id v ops st :
  (List.length (nodup Nat.eq_dec users) <= LruCache.maxsize)%nat ->
  incl (flat_map cache_user ops) users ->
  cache_inv users id v (fst st) ->
  cache_inv users id v (fst (run ops st)).
Proof.
  intros Hsize. revert st. unfold run.
  induction ops as [|op ops IH]; intros st Huser Hinv; simpl; auto.
  simpl in Huser. apply IH.
  - intros x Hx. apply Huser. apply in_or_app. now right.
  - apply step_cache_inv; auto.
    intros x Hx. apply Huser. apply in_or_app. now left.
Qed.

(** C10, as the program has it.  The first call of
    [get_function_descriptions] on an instance stores its result in the
    cache that all the instances share.  While the instances that use
    the cache are no more than the 128 entries it holds, every later
    call on that instance returns the stored list, whatever is
    registered in between, and [prepare_for_llm] returns descriptions
    of that list only: a callable registered since under a name the
    list does not have is never offered. *)
Theorem descriptions_frozen ops w c id v :
  NoDup (cache_keys (descriptions_cache w)) ->
  LruCache.lookup id (descriptions_cache w) = Some v ->
  (List.length
     (nodup Nat.eq_dec
        (cache_keys (descriptions_cache w) ++ flat_map cache_user ops))
   <= LruCache.maxsize)%nat ->
  let w' := fst (run ops (w, c)) in
  (forall self',
      fst (get_function_descriptions (descriptions_cache w') id self') = v /\
      forall context c',
        let descs :=
          fst (fst (prepare_for_llm (descriptions_cache w') id self'
                      context c')) in
        incl descs v /\
        forall n, ~ In n (desc_names v) -> ~ In n (desc_names descs)) /\
  (forall cache0 self0,
      LruCache.lookup id cache0 = None ->
      fst (get_function_descriptions cache0 id self0)
      = compute_function_descriptions self0 /\
      LruCache.lookup id (snd (get_function_descriptions cache0 id self0))
      = Some (compute_function_descriptions self0)).
Proof.
  intros Hnd Hid Hsize. cbv zeta. split.
  - assert (Hinv : cache_inv
                     (cache_keys (descriptions_cache w)
                      ++ flat_map cache_user ops) id v
                     (fst (run ops (w, c)))).
    { apply run_cache_inv; auto.
      - apply incl_appr, incl_refl.
      - repeat split; auto. apply incl_appl, incl_refl. }
    destruct Hinv as (_ & _ & Hid').
    intros self'.
    assert (Hget : fst (get_function_descriptions
                          (descriptions_cache (fst (run ops (w, c))))
                          id self') = v)
      by (unfold get_function_descriptions; now apply lru_call_hit).
    split; [exact Hget|]. intros context c'.
    rewrite prepare_for_llm_eq. cbn [fst]. rewrite Hget.
    assert (Hincl : incl
                      (filter
                         (is_offered
                            (fst (filter_functions (registry self')
                                    (context_or_empty context) c'))) v) v)
      by apply incl_filter.
    split; [exact Hincl|]. intros n Hn Hn'. apply Hn.
    now apply (desc_names_incl _ _ Hincl).
  - intros cache0 self0 Hmiss. unfold get_function_descriptions. split.
    + now apply lru_call_miss.
    + now apply lru_call_caches.
Qed.

(** A process with one instance, on which [ping] is registered and the
    descriptions have been asked for once. *)
Definition world1 : World :=
  fst (run [New_smart_caller;
            Register_function 0 ping None None 5 0;
            Get_function_descriptions 0] (new_world, clock0)).

Definition descriptions1 : list value :=
  [describe (make_schema ping None None 5 0)].

Definition later_ops : list operation :=
  [Register_function 0 add None None 5 0;
   Prepare_for_llm 0 None;
   New_smart_caller;
   Get_function_descriptions 1].

Lemma descriptions_frozen_witness :
  NoDup (cache_keys (descriptions_cache world1)) /\
  LruCache.lookup 0 (descriptions_cache world1) = Some descriptions1 /\
  (List.length
     (nodup Nat.eq_dec
        (cache_keys (descriptions_cache world1)
         ++ flat_map cache_user later_ops))
   <= LruCache.maxsize)%nat /\
  let w' := fst (run later_ops (world1, clock0)) in
  (forall self',
      fst (get_function_descriptions (descriptions_cache w') 0 self')
      = descriptions1 /\
      forall context c',
        let descs :=
          fst (fst (prepare_for_llm (descriptions_cache w') 0 self'
                      context c')) in
        incl descs descriptions1 /\
        forall n, ~ In n (desc_names descriptions1) ->
                  ~ In n (desc_names descs)) /\
  (forall cache0 self0,
      LruCache.lookup 0 cache0 = None ->
      fst (get_function_descriptions cache0 0 self0)
      = compute_function_descriptions self0 /\
      LruCache.lookup 0 (snd (get_function_descriptions cache0 0 self0))
      = Some (compute_function_descriptions self0)).
Proof.
  assert (H1 : NoDup (cache_keys (descriptions_cache world1)))
    by (repeat constructor; simpl; tauto).
  assert (H2 : LruCache.lookup 0 (descriptions_cache world1)
               = Some descriptions1) by reflexivity.
  assert (H3 : (List.length
                  (nodup Nat.eq_dec
                     (cache_keys (descriptions_cache world1)
                      ++ flat_map cache_user later_ops))
                <= LruCache.maxsize)%nat)
    by (apply Nat.leb_le; vm_compute; reflexivity).
  split; [exact H1|]. split; [exact H2|]. split; [exact H3|].
  exact (descriptions_frozen later_ops world1 clock0 0 descriptions1
           H1 H2 H3).
Defined.

(** A process with 129 instances; [ping] is registered on the first
    one, whose descriptions are then asked for. *)
Definition world_first_call : World :=
  fst (run (repeat New_smart_caller 129
            ++ [Register_function 0 ping None None 5 0;
                Get_function_descriptions 0])%list
         (new_world, clock0)).

(** The 128 other instances ask for their descriptions, then [add] is
    registered on the first instance. *)
Definition world_later : World :=
  fst (run (map Get_function_descriptions (seq 1 128)
            ++ [Register_function 0 add None None 5 0])%list
         (world_first_call, clock0)).

(** C10 as it is stated fails: when 128 other instances have used the
    cache, the entry of the first instance is gone, the list is computed
    again, and a callable registered after the first call is offered. *)
Lemma descriptions_recomputed_after_eviction :
  match LruCache.lookup 0 (descriptions_cache world_first_call),
        nth_error (instances world_later) 0 with
  | Some v, Some self =>
      desc_names v = ["ping"] /\
      desc_names
        (fst (get_function_descriptions (descriptions_cache world_later)
                0 self))
      = ["ping"; "add"] /\
      desc_names
        (fst (fst (prepare_for_llm (descriptions_cache world_later)
                     0 self None clock0)))
      = ["ping"; "add"]
  | _, _ => False
  end.
Proof. vm_compute. auto. Qed.

(** ** The round trip of [json.dumps] and [json.loads] *)

Section JsonRoundTrip.
Import Json.
Local Open Scope N_scope.

(** *** Digits *)

Lemma digit_cases d :
  d < 10 ->
  d = 0 \/ d = 1 \/ d = 2 \/ d = 3 \/ d = 4 \/
  d = 5 \/ d = 6 \/ d = 7 \/ d = 8 \/ d = 9.
Proof. lia. Qed.

Ltac each_digit H :=
  apply digit_cases in H;
  repeat (destruct H as [H|H]; [subst|]); subst.

Lemma char_digit_digit_of d : d < 10 -> char_digit (digit_of d) = Some d.
Proof. intros H. each_digit H; reflexivity. Qed.

(** A string that does not go on with a digit. *)
Definition no_digit (s : string) : Prop :=
  match s with
  | String c _ => char_digit c = None
  | EmptyString => True
  end.

Lemma scan_digits_stop s acc cnt :
  no_digit s -> scan_digits s acc cnt = (acc, cnt, s).
Proof. destruct s as [|c s]; simpl; auto. now intros ->. Qed.

Lemma pow10_succ k : 10 ^ N.of_nat (S k) = 10 * 10 ^ N.of_nat k.
Proof. now rewrite Nat2N.inj_succ, N.pow_succ_r'. Qed.

Lemma pow10_pos k : 0 < 10 ^ N.of_nat k.
Proof. apply N.neq_0_lt_0, N.pow_nonzero. discriminate. Qed.

Lemma scan_digits_fixed k n rest acc cnt :
  scan_digits (fixed_digits k n rest) acc cnt =
  scan_digits rest (acc * 10 ^ N.of_nat k + n mod 10 ^ N.of_nat k)
    (cnt + k)%nat.
Proof.
  revert n rest acc cnt. induction k as [|k IH]; intros n rest acc cnt.
  - simpl. rewrite N.mod_1_r, N.mul_1_r, N.add_0_r, Nat.add_0_r. reflexivity.
  - cbn [fixed_digits]. rewrite IH. cbn [scan_digits].
    rewrite char_digit_digit_of by (apply N.mod_lt; discriminate).
    rewrite pow10_succ, N.Div0.mod_mul_r.
    f_equal; lia.
Qed.

Lemma fixed_digits_head k n rest :
  fixed_digits (S k) n rest =
  String (digit_of ((n / 10 ^ N.of_nat k) mod 10)) (fixed_digits k n rest).
Proof.
  revert n rest. induction k as [|k IH]; intros n rest.
  - simpl. now rewrite N.div_1_r.
  - change (fixed_digits (S (S k)) n rest)
      with (fixed_digits (S k) (n / 10) (String (digit_of (n mod 10)) rest)).
    rewrite IH. rewrite N.Div0.div_div, <- pow10_succ. reflexivity.
Qed.

Lemma fixed_digits_length k n rest :
  String.length (fixed_digits k n rest) = (k + String.length rest)%nat.
Proof.
  revert n rest. induction k as [|k IH]; intros n rest; simpl; auto.
  rewrite IH. simpl. lia.
Qed.

(** *** The number of digits *)

Lemma ndigits_pos fuel n : (1 <= ndigits fuel n)%nat.
Proof. destruct fuel; simpl; [|destruct (n <? 10)]; lia. Qed.

Lemma ndigits_bounds fuel n :
  n < 2 ^ N.of_nat fuel ->
  n < 10 ^ N.of_nat (ndigits fuel n) /\
  (n <> 0 -> 10 ^ N.of_nat (Nat.pred (ndigits fuel n)) <= n).
Proof.
  revert n. induction fuel as [|fuel IH]; intros n Hn.
  - simpl in *. split; lia.
  - cbn [ndigits]. destruct (n <? 10) eqn:E.
    + apply N.ltb_lt in E. simpl. split; lia.
    + apply N.ltb_ge in E.
      assert (Hdiv : n / 10 < 2 ^ N.of_nat fuel).
      { rewrite Nat2N.inj_succ, N.pow_succ_r' in Hn.
        apply N.Div0.div_lt_upper_bound. lia. }
      destruct (IH _ Hdiv) as [Hup Hlow].
      pose proof (ndigits_pos fuel (n / 10)) as Hpos.
      pose proof (N.Div0.div_mod n 10) as Hdm.
      pose proof (N.mod_lt n 10 ltac:(discriminate)) as Hm.
      split.
      * rewrite pow10_succ. lia.
      * intros _. rewrite Nat.pred_succ.
        assert (Hq : n / 10 <> 0).
        { intros Hq. rewrite Hq in Hdm. lia. }
        specialize (Hlow Hq).
        destruct (ndigits fuel (n / 10)) as [|k]; [lia|].
        rewrite Nat.pred_succ in Hlow. rewrite pow10_succ.
        clear - Hlow Hdm.
        remember (n / 10) as q. remember (n mod 10) as r. lia.
Qed.

Lemma num_digits_bounds n :
  n < 10 ^ N.of_nat (num_digits n) /\
  (n <> 0 -> 10 ^ N.of_nat (Nat.pred (num_digits n)) <= n).
Proof.
  apply ndigits_bounds. rewrite N2Nat.id. apply N.size_gt.
Qed.

(** *** [print_N] and [scan_int_part] *)

Lemma scan_int_part_print_N n rest :
  no_digit rest -> scan_int_part (print_N n rest) = Some (n, rest).
Proof.
  intros Hrest. destruct (N.eq_dec n 0) as [->|Hn]; [reflexivity|].
  unfold print_N.
  destruct (num_digits_bounds n) as [Hup Hlow]. specialize (Hlow Hn).
  pose proof (ndigits_pos (N.to_nat (N.size n)) n) as Hpos.
  fold (num_digits n) in Hpos.
  destruct (num_digits n) as [|k]; [lia|].
  rewrite Nat.pred_succ in Hlow.
  set (msd := (n / 10 ^ N.of_nat k) mod 10).
  assert (Hmsd : msd <> 0 /\ msd < 10).
  { unfold msd. rewrite pow10_succ in Hup.
    pose proof (pow10_pos k) as Hp.
    assert (1 <= n / 10 ^ N.of_nat k)
      by (apply N.div_le_lower_bound; lia).
    assert (n / 10 ^ N.of_nat k < 10)
      by (apply N.Div0.div_lt_upper_bound; lia).
    rewrite N.mod_small; lia. }
  pose proof (fixed_digits_head k n rest) as Hhead. fold msd in Hhead.
  unfold scan_int_part. rewrite Hhead at 1.
  rewrite char_digit_digit_of by tauto.
  destruct (msd =? 0) eqn:E; [apply N.eqb_eq in E; tauto|].
  rewrite scan_digits_fixed, (scan_digits_stop _ _ _ Hrest).
  now rewrite N.mod_small by exact Hup.
Qed.
(** *** Numbers *)

(** A string that does not go on as a number would. *)
Definition number_end (s : string) : Prop :=
  match s with
  | String c _ =>
      char_digit c = None /\ Ascii.eqb c "." = false /\
      Ascii.eqb c "e" = false /\ Ascii.eqb c "E" = false
  | EmptyString => True
  end.

Lemma number_end_no_digit s : number_end s -> no_digit s.
Proof. destruct s; simpl; tauto. Qed.

Lemma scan_frac_end s : number_end s -> scan_frac s = None.
Proof. destruct s as [|c s]; simpl; auto. now intros (_ & -> & _). Qed.

Lemma scan_exp_end s : number_end s -> scan_exp s = None.
Proof. destruct s as [|c s]; simpl; auto. now intros (_ & _ & -> & ->). Qed.

(** The first character of a number: the sign or a digit. *)
Definition number_head (c : ascii) : Prop :=
  c = "-"%char \/ exists d, d < 10 /\ c = digit_of d.

Lemma print_N_head n rest :
  exists d tail, d < 10 /\ print_N n rest = String (digit_of d) tail.
Proof.
  unfold print_N.
  pose proof (ndigits_pos (N.to_nat (N.size n)) n) as Hpos.
  fold (num_digits n) in Hpos.
  destruct (num_digits n) as [|k]; [lia|].
  rewrite fixed_digits_head. eexists _, _. split; [|reflexivity].
  apply N.mod_lt. discriminate.
Qed.

Lemma read_minus_digit d tail :
  d < 10 ->
  read_minus (String (digit_of d) tail) = (false, String (digit_of d) tail).
Proof. intros H. each_digit H; reflexivity. Qed.

Lemma read_minus_print_N n rest :
  read_minus (print_N n rest) = (false, print_N n rest).
Proof.
  destruct (print_N_head n rest) as (d & tail & Hd & ->).
  now apply read_minus_digit.
Qed.

Lemma signed_abs z : signed (z <? 0)%Z (Z.abs_N z) = z.
Proof.
  unfold signed. rewrite N2Z.inj_abs_N.
  destruct (z <? 0)%Z eqn:E; [apply Z.ltb_lt in E | apply Z.ltb_ge in E]; lia.
Qed.

Lemma read_minus_print_sign z n rest :
  read_minus (print_sign z (print_N n rest)) = ((z <? 0)%Z, print_N n rest).
Proof.
  unfold print_sign. destruct (z <? 0)%Z; [reflexivity|].
  apply read_minus_print_N.
Qed.

Lemma parse_number_print_int z rest :
  number_end rest -> parse_number (print_int z rest) = Some (VInt z, rest).
Proof.
  intros Hrest. unfold parse_number, print_int.
  rewrite read_minus_print_sign.
  rewrite scan_int_part_print_N by now apply number_end_no_digit.
  rewrite scan_frac_end, scan_exp_end by assumption.
  now rewrite signed_abs.
Qed.

Lemma parse_number_print_float f rest :
  number_end rest -> parse_number (print_float f rest) = Some (VFloat f, rest).
Proof.
  intros Hrest. destruct f as [m kp]. unfold parse_number, print_float.
  cbn [f_mant f_frac_pred].
  set (k := S kp). set (a := Z.abs_N m). set (p := 10 ^ N.of_nat k).
  rewrite read_minus_print_sign.
  rewrite scan_int_part_print_N by reflexivity.
  unfold scan_frac. cbn [Ascii.eqb Bool.eqb].
  rewrite scan_digits_fixed.
  rewrite (scan_digits_stop _ _ _ (number_end_no_digit _ Hrest)).
  fold p. rewrite N.mul_0_l, N.add_0_l, N.Div0.mod_mod.
  cbn [Nat.add]. unfold k at 1.
  rewrite scan_exp_end by assumption.
  unfold make_float. fold p.
  replace (a / p * p + a mod p) with a
    by (rewrite (N.Div0.div_mod a p) at 1; lia).
  replace (0 - Z.of_nat k <? 0)%Z with true
    by (symmetry; apply Z.ltb_lt; unfold k; lia).
  replace (Nat.pred (Z.to_nat (- (0 - Z.of_nat k)))) with kp
    by (unfold k; lia).
  unfold a. now rewrite signed_abs.
Qed.

Lemma print_int_head z rest :
  exists c tail, print_int z rest = String c tail /\ number_head c.
Proof.
  unfold print_int, print_sign. destruct (z <? 0)%Z.
  - eexists _, _. split; [reflexivity|]. now left.
  - destruct (print_N_head (Z.abs_N z) rest) as (d & tail & Hd & ->).
    eexists _, _. split; [reflexivity|]. right. eauto.
Qed.

Lemma print_float_head f rest :
  exists c tail, print_float f rest = String c tail /\ number_head c.
Proof.
  unfold print_float, print_sign. destruct (f_mant f <? 0)%Z.
  - eexists _, _. split; [reflexivity|]. now left.
  - match goal with
    | |- context [print_N ?n ?r] =>
        destruct (print_N_head n r) as (d & tail & Hd & ->)
    end.
    eexists _, _. split; [reflexivity|]. right. eauto.
Qed.

Lemma parse_value_number fuel c s :
  number_head c ->
  parse_value (S fuel) (String c s) = parse_number (String c s).
Proof.
  intros [->|(d & Hd & ->)]; [reflexivity|]. each_digit Hd; reflexivity.
Qed.

(** *** Strings *)

Lemma scan_string_escape_char c tail :
  scan_string (escape_char c tail) = cons_char c (scan_string tail).
Proof.
  destruct c as [b0 b1 b2 b3 b4 b5 b6 b7].
  destruct b0, b1, b2, b3, b4, b5, b6, b7; reflexivity.
Qed.

Lemma scan_string_escape s rest :
  scan_string (escape s (String quote rest)) = Some (s, rest).
Proof.
  induction s as [|c s IH]; [reflexivity|].
  cbn [escape]. now rewrite scan_string_escape_char, IH.
Qed.

Lemma escape_char_length c tail :
  (String.length tail < String.length (escape_char c tail))%nat.
Proof.
  destruct c as [b0 b1 b2 b3 b4 b5 b6 b7].
  destruct b0, b1, b2, b3, b4, b5, b6, b7; simpl; lia.
Qed.

Lemma escape_length s tail :
  (String.length tail <= String.length (escape s tail))%nat.
Proof.
  induction s as [|c s IH]; simpl; auto.
  pose proof (escape_char_length c (escape s tail)). lia.
Qed.
(** *** Values *)

(** Induction on a value, with the property assumed of the elements of
    a list and of the values of a dictionary. *)
Definition value_induction (P : value -> Prop)
    (HNone : P VNone) (HBool : forall b, P (VBool b))
    (HInt : forall z, P (VInt z)) (HFloat : forall f, P (VFloat f))
    (HStr : forall s, P (VStr s))
    (HList : forall l, Forall P l -> P (VList l))
    (HDict : forall d, Forall (fun kv => P (snd kv)) d -> P (VDict d))
  : forall v, P v :=
  fix F (v : value) : P v :=
    match v with
    | VNone => HNone
    | VBool b => HBool b
    | VInt z => HInt z
    | VFloat f => HFloat f
    | VStr s => HStr s
    | VList l =>
        HList l
          ((fix G (l : list value) : Forall P l :=
              match l with
              | [] => Forall_nil P
              | x :: l' => Forall_cons x (F x) (G l')
              end) l)
    | VDict d =>
        HDict d
          ((fix G (d : list (string * value))
              : Forall (fun kv => P (snd kv)) d :=
              match d with
              | [] => Forall_nil _
              | (k, x) :: d' =>
                  Forall_cons (P := fun kv => P (snd kv)) (k, x) (F x) (G d')
              end) d)
    end.

(** A value that JSON can hold: no dictionary in it has a key twice.
    (The keys are strings, and the floats finite, by their types.) *)
Fixpoint json_representable (v : value) : Prop :=
  match v with
  | VList l => fold_right (fun x acc => json_representable x /\ acc) True l
  | VDict d =>
      NoDup (map fst d) /\
      fold_right (fun kv acc => let '(_, x) := kv in
                                json_representable x /\ acc) True d
  | _ => True
  end.

(** The fuel [parse_value] needs for the text of a value. *)
Fixpoint cost (v : value) : nat :=
  match v with
  | VList l => S (list_sum (map (fun x => S (cost x)) l))
  | VDict d =>
      S (list_sum (map (fun kv => let '(_, x) := kv in S (cost x)) d))
  | _ => 1
  end.

(** What [print_value] writes after the first element of a list, and
    after the first entry of a dictionary. *)
Definition print_elements (rest : string) : list value -> string :=
  fix go (l : list value) : string :=
    match l with
    | [] => String "]" rest
    | v1 :: l' => (", " ++ print_value v1 (go l'))%string
    end.

Definition print_members (rest : string) : list (string * value) -> string :=
  fix go (d : list (string * value)) : string :=
    match d with
    | [] => String "}" rest
    | (k1, v1) :: d' =>
        (", " ++ print_string k1 (": " ++ print_value v1 (go d')))%string
    end.

Lemma print_value_list v0 l rest :
  print_value (VList (v0 :: l)) rest
  = String "[" (print_value v0 (print_elements rest l)).
Proof. reflexivity. Qed.

Lemma print_value_dict k0 v0 d rest :
  print_value (VDict ((k0, v0) :: d)) rest
  = String "{"
      (print_string k0
         (String ":" (String " " (print_value v0 (print_members rest d))))).
Proof. reflexivity. Qed.

Lemma print_elements_cons rest v1 l :
  print_elements rest (v1 :: l)
  = String "," (String " " (print_value v1 (print_elements rest l))).
Proof. reflexivity. Qed.

Lemma print_members_cons rest k1 v1 d :
  print_members rest ((k1, v1) :: d)
  = String "," (String " "
      (print_string k1
         (String ":" (String " " (print_value v1 (print_members rest d)))))).
Proof. reflexivity. Qed.

Lemma number_head_props c :
  number_head c ->
  is_ws c = false /\ Ascii.eqb "]" c = false /\ Ascii.eqb c quote = false.
Proof.
  intros [->|(d & Hd & ->)]; [repeat split|]. each_digit Hd; repeat split.
Qed.

(** The text of a value starts with a character that is neither white
    space nor a closing bracket. *)
Lemma print_value_head v rest :
  exists c tail,
    print_value v rest = String c tail /\
    is_ws c = false /\ Ascii.eqb "]" c = false.
Proof.
  destruct v as [|[]|z|f|s|[|v0 l]|[|[k0 v0] d]];
    try (eexists _, _; split; [reflexivity|]; split; reflexivity).
  - destruct (print_int_head z rest) as (c & tail & Heq & Hc).
    exists c, tail. split; [exact Heq|].
    destruct (number_head_props c Hc) as (H1 & H2 & _). now split.
  - destruct (print_float_head f rest) as (c & tail & Heq & Hc).
    exists c, tail. split; [exact Heq|].
    destruct (number_head_props c Hc) as (H1 & H2 & _). now split.
Qed.

Lemma skip_ws_print_value v rest :
  skip_ws (print_value v rest) = print_value v rest.
Proof.
  destruct (print_value_head v rest) as (c & tail & -> & Hws & _).
  simpl. now rewrite Hws.
Qed.

Lemma starts_with_print_value v rest :
  starts_with "]" (print_value v rest) = None.
Proof.
  destruct (print_value_head v rest) as (c & tail & -> & _ & Hc).
  unfold starts_with. now rewrite Hc.
Qed.

Lemma parse_value_space fuel s :
  parse_value fuel (String " " s) = parse_value fuel s.
Proof. destruct fuel; reflexivity. Qed.

Lemma parse_elements_space fuel s :
  parse_elements fuel (String " " s) = parse_elements fuel s.
Proof.
  destruct fuel; [reflexivity|]. cbn [parse_elements].
  now rewrite parse_value_space.
Qed.

Lemma parse_members_space fuel s :
  parse_members fuel (String " " s) = parse_members fuel s.
Proof. destruct fuel; reflexivity. Qed.

Lemma number_end_print_elements rest l : number_end (print_elements rest l).
Proof. destruct l; repeat split. Qed.

Lemma number_end_print_members rest d : number_end (print_members rest d).
Proof. destruct d as [|[k v] d]; repeat split. Qed.

(** [parse_value] reads back the text of [v], whatever follows it. *)
Definition reads_back (v : value) : Prop :=
  forall rest fuel,
    json_representable v -> number_end rest -> (cost v <= fuel)%nat ->
    parse_value fuel (print_value v rest) = Some (v, rest).

Lemma parse_elements_print v0 l rest fuel :
  Forall reads_back (v0 :: l) ->
  json_representable (VList (v0 :: l)) ->
  (list_sum (map (fun x => S (cost x)) (v0 :: l)) <= fuel)%nat ->
  parse_elements fuel (print_value v0 (print_elements rest l))
  = Some (v0 :: l, rest).
Proof.
  revert v0 fuel. induction l as [|v1 l IH]; intros v0 fuel Hall Hrep Hfuel.
  - destruct fuel as [|fuel]; [simpl in Hfuel; lia|].
    inversion Hall as [|? ? Hv0 _]; subst.
    cbn [parse_elements].
    rewrite Hv0; [reflexivity| | |].
    + simpl in Hrep. tauto.
    + repeat split.
    + simpl in Hfuel. lia.
  - destruct fuel as [|fuel]; [simpl in Hfuel; lia|].
    inversion Hall as [|? ? Hv0 Hall']; subst.
    cbn [parse_elements].
    rewrite Hv0.
    + rewrite print_elements_cons. cbv beta iota.
      cbn [skip_ws is_ws]. rewrite parse_elements_space.
      rewrite IH; auto.
      * simpl in Hrep. simpl. tauto.
      * simpl in Hfuel. simpl. lia.
    + simpl in Hrep. tauto.
    + apply number_end_print_elements.
    + simpl in Hfuel. lia.
Qed.

Lemma parse_members_print k0 v0 d rest fuel :
  Forall (fun kv => reads_back (snd kv)) ((k0, v0) :: d) ->
  fold_right (fun kv acc => let '(_, x) := kv in
                            json_representable x /\ acc) True
    ((k0, v0) :: d) ->
  (list_sum (map (fun kv => let '(_, x) := kv in S (cost x))
               ((k0, v0) :: d)) <= fuel)%nat ->
  parse_members fuel
    (print_string k0
       (String ":" (String " " (print_value v0 (print_members rest d)))))
  = Some ((k0, v0) :: d, rest).
Proof.
  revert k0 v0 fuel.
  induction d as [|[k1 v1] d IH]; intros k0 v0 fuel Hall Hrep Hfuel.
  - destruct fuel as [|fuel]; [simpl in Hfuel; lia|].
    inversion Hall as [|? ? Hv0 _]; subst. cbn [snd] in Hv0.
    unfold print_string. cbn [parse_members skip_ws is_ws quote].
    cbn [Ascii.eqb Bool.eqb]. rewrite scan_string_escape.
    cbn [skip_ws is_ws]. rewrite parse_value_space.
    rewrite Hv0; [reflexivity| | |].
    + simpl in Hrep. tauto.
    + repeat split.
    + simpl in Hfuel. lia.
  - destruct fuel as [|fuel]; [simpl in Hfuel; lia|].
    inversion Hall as [|? ? Hv0 Hall']; subst. cbn [snd] in Hv0.
    unfold print_string at 1. cbn [parse_members skip_ws is_ws quote].
    cbn [Ascii.eqb Bool.eqb]. rewrite scan_string_escape.
    cbn [skip_ws is_ws]. rewrite parse_value_space.
    rewrite Hv0.
    + rewrite print_members_cons. cbv beta iota.
      cbn [skip_ws is_ws]. rewrite parse_members_space.
      rewrite IH; auto.
      * simpl in Hrep. simpl. tauto.
      * simpl in Hfuel. simpl. lia.
    + simpl in Hrep. tauto.
    + apply number_end_print_members.
    + simpl in Hfuel. lia.
Qed.

Lemma dict_of_pairs_NoDup (d : list (string * value)) :
  NoDup (map fst d) -> dict_of_pairs d = d.
Proof.
  unfold dict_of_pairs. intros Hnd.
  assert (H : forall acc,
             NoDup (map fst acc ++ map fst d) ->
             fold_left (fun d0 kv => dict_set (fst kv) (snd kv) d0) d acc
             = (acc ++ d)%list).
  { clear Hnd. induction d as [|[k v] d IH]; intros acc Hnd; simpl.
    - now rewrite app_nil_r.
    - rewrite dict_set_new.
      + rewrite IH.
        * now rewrite <- app_assoc.
        * rewrite map_app, <- app_assoc. exact Hnd.
      + intros Hin. simpl in Hnd. apply NoDup_remove_2 in Hnd.
        apply Hnd. apply in_or_app. now left. }
  now apply (H []).
Qed.

Lemma skip_ws_print_string k rest :
  skip_ws (print_string k rest) = print_string k rest.
Proof. reflexivity. Qed.

Lemma starts_with_print_string k rest :
  starts_with "}" (print_string k rest) = None.
Proof. reflexivity. Qed.

Theorem parse_value_print_value v : reads_back v.
Proof.
  induction v as [|b|z|f|s|l IH|d IH] using value_induction;
    intros rest fuel Hrep Hrest Hfuel;
    (destruct fuel as [|fuel]; [simpl in Hfuel; lia|]).
  - reflexivity.
  - destruct b; reflexivity.
  - change (print_value (VInt z) rest) with (print_int z rest).
    destruct (print_int_head z rest) as (c & tail & Heq & Hc).
    rewrite Heq, (parse_value_number _ _ _ Hc), <- Heq.
    now apply parse_number_print_int.
  - change (print_value (VFloat f) rest) with (print_float f rest).
    destruct (print_float_head f rest) as (c & tail & Heq & Hc).
    rewrite Heq, (parse_value_number _ _ _ Hc), <- Heq.
    now apply parse_number_print_float.
  - change (print_value (VStr s) rest) with (print_string s rest).
    unfold print_string. cbn [parse_value skip_ws is_ws quote].
    cbn [Ascii.eqb Bool.eqb]. now rewrite scan_string_escape.
  - destruct l as [|v0 l]; [reflexivity|].
    rewrite print_value_list. cbn [parse_value skip_ws is_ws].
    cbn [Ascii.eqb Bool.eqb].
    rewrite skip_ws_print_value, starts_with_print_value.
    rewrite parse_elements_print; auto.
    cbn [cost] in Hfuel. lia.
  - destruct d as [|[k0 v0] d]; [reflexivity|].
    rewrite print_value_dict. cbn [parse_value skip_ws is_ws].
    cbn [Ascii.eqb Bool.eqb].
    rewrite skip_ws_print_string, starts_with_print_string.
    destruct Hrep as [Hnd Hrep].
    rewrite parse_members_print; auto.
    + now rewrite dict_of_pairs_NoDup.
    + cbn [cost] in Hfuel. lia.
Qed.

(** *** The fuel of [loads] is enough *)

Local Open Scope nat_scope.

Lemma list_sum_cons x l : list_sum (x :: l) = x + list_sum l.
Proof. reflexivity. Qed.

Lemma print_N_length n rest :
  1 + String.length rest <= String.length (print_N n rest).
Proof.
  unfold print_N. rewrite fixed_digits_length.
  pose proof (ndigits_pos (N.to_nat (N.size n)) n) as Hpos.
  fold (num_digits n) in Hpos. lia.
Qed.

Lemma print_sign_length z rest :
  String.length rest <= String.length (print_sign z rest).
Proof. unfold print_sign. destruct (z <? 0)%Z; simpl; lia. Qed.

Lemma print_string_length s rest :
  2 + String.length rest <= String.length (print_string s rest).
Proof.
  unfold print_string. simpl.
  pose proof (escape_length s (String quote rest)) as H. simpl in H. lia.
Qed.

(** The text of a value is at least as long as its cost. *)
Definition long_enough (v : value) : Prop :=
  forall rest,
    cost v + String.length rest <= String.length (print_value v rest).

Lemma print_elements_length rest l :
  Forall long_enough l ->
  list_sum (map (fun x => S (cost x)) l) + 1 + String.length rest
  <= String.length (print_elements rest l).
Proof.
  induction 1 as [|v1 l Hv1 _ IH].
  - simpl. lia.
  - rewrite print_elements_cons. cbn [map String.length]. rewrite list_sum_cons.
    specialize (Hv1 (print_elements rest l)). lia.
Qed.

Lemma print_members_length rest d :
  Forall (fun kv => long_enough (snd kv)) d ->
  list_sum (map (fun kv => let '(_, x) := kv in S (cost x)) d)
  + 1 + String.length rest
  <= String.length (print_members rest d).
Proof.
  induction 1 as [|[k1 v1] d Hv1 _ IH].
  - simpl. lia.
  - rewrite print_members_cons. cbn [map String.length]. rewrite list_sum_cons.
    cbn [snd] in Hv1.
    pose proof (print_string_length k1
                  (String ":" (String " "
                     (print_value v1 (print_members rest d))))) as Hk.
    cbn [String.length] in Hk.
    specialize (Hv1 (print_members rest d)). lia.
Qed.

Lemma cost_le_length v : long_enough v.
Proof.
  induction v as [|b|z|f|s|l IH|d IH] using value_induction; intros rest.
  - simpl. lia.
  - destruct b; simpl; lia.
  - change (print_value (VInt z) rest) with (print_int z rest).
    unfold print_int. cbn [cost].
    pose proof (print_sign_length z (print_N (Z.abs_N z) rest)).
    pose proof (print_N_length (Z.abs_N z) rest). lia.
  - change (print_value (VFloat f) rest) with (print_float f rest).
    unfold print_float. cbn [cost].
    match goal with
    | |- context [print_sign ?z (print_N ?n ?r)] =>
        pose proof (print_sign_length z (print_N n r));
        pose proof (print_N_length n r) as Hn
    end.
    cbn [String.length] in Hn. rewrite fixed_digits_length in Hn. lia.
  - change (print_value (VStr s) rest) with (print_string s rest).
    pose proof (print_string_length s rest). cbn [cost]. lia.
  - destruct l as [|v0 l]; [simpl; lia|].
    inversion IH as [|? ? Hv0 Hl]; subst.
    rewrite print_value_list. cbn [cost map String.length]. rewrite list_sum_cons.
    specialize (Hv0 (print_elements rest l)).
    pose proof (print_elements_length rest l Hl). lia.
  - destruct d as [|[k0 v0] d]; [simpl; lia|].
    inversion IH as [|? ? Hv0 Hd]; subst. cbn [snd] in Hv0.
    rewrite print_value_dict. cbn [cost map String.length]. rewrite list_sum_cons.
    pose proof (print_string_length k0
                  (String ":" (String " "
                     (print_value v0 (print_members rest d))))) as Hk.
    cbn [String.length] in Hk.
    specialize (Hv0 (print_members rest d)).
    pose proof (print_members_length rest d Hd). lia.
Qed.

(** [json.loads(json.dumps(v)) == v] for every value that JSON can
    hold. *)
Theorem loads_dumps v : json_representable v -> loads (dumps v) = Ok v.
Proof.
  intros Hrep. unfold loads, dumps.
  rewrite parse_value_print_value; auto.
  - exact I.
  - pose proof (cost_le_length v EmptyString) as H. simpl in H. lia.
Qed.

End JsonRoundTrip.

(** ** The round trip of [StateTracker] *)

(** A tracker whose attributes JSON can hold.  The identifier of a
    session is a string and its times are floats, which JSON holds; the
    condition bears on the state and on the history. *)
Definition tracker_representable (self : StateTracker) : Prop :=
  json_representable (session_id self) /\
  json_representable (created_at self) /\
  json_representable (last_updated self) /\
  json_representable (_state self) /\
  json_representable (_history self).

Lemma document_representable self :
  tracker_representable self -> json_representable (document self).
Proof.
  intros (H1 & H2 & H3 & H4 & H5). unfold document.
  split; [|simpl; tauto].
  repeat constructor; simpl; intuition discriminate.
Qed.

Lemma json_representable_list l :
  json_representable (VList l) <-> Forall json_representable l.
Proof.
  induction l as [|x l IH]; simpl.
  - split; auto.
  - split.
    + intros [Hx Hl]. constructor; auto. now apply IH.
    + intros H. inversion H; subst. split; auto. now apply IH.
Qed.

Lemma json_representable_dict d :
  json_representable (VDict d) <->
  NoDup (dict_keys d) /\ Forall (fun kv => json_representable (snd kv)) d.
Proof.
  change (json_representable (VDict d))
    with (NoDup (map fst d) /\
          fold_right (fun kv acc => let '(_, x) := kv in
                                    json_representable x /\ acc) True d).
  unfold dict_keys.
  assert (H : fold_right (fun kv acc => let '(_, x) := kv in
                                        json_representable x /\ acc) True d
              <-> Forall (fun kv => json_representable (snd kv)) d).
  { induction d as [|[k x] d IH]; simpl.
    - split; auto.
    - split.
      + intros [Hx Hd]. constructor; auto. now apply IH.
      + intros H. inversion H; subst. split; auto. now apply IH. }
  tauto.
Qed.

(** The trackers the class makes from values that JSON can hold are
    trackers whose attributes JSON can hold. *)
Lemma new_state_tracker_representable sid ttl c :
  json_representable sid ->
  tracker_representable (fst (new_state_tracker sid ttl c)).
Proof.
  intros Hsid. unfold new_state_tracker.
  destruct (truthy sid); simpl; repeat split; auto; constructor.
Qed.

Lemma update_representable self key v c self' :
  tracker_representable self -> json_representable v ->
  fst (update self key v c) = Ok self' ->
  tracker_representable self'.
Proof.
  intros (H1 & H2 & H3 & H4 & H5) Hv. unfold update.
  destruct (_state self) as [| | | | | |d] eqn:E; try discriminate.
  cbn [fst]. destruct (time_time c) as [now c']. cbn [fst].
  intros [= <-]. unfold tracker_representable.
  cbn [session_id created_at last_updated _state _history].
  refine (conj H1 (conj H2 (conj I (conj _ H5)))).
  apply json_representable_dict in H4. destruct H4 as [Hnd Hall].
  apply json_representable_dict. split.
  - now apply dict_set_NoDup.
  - apply Forall_forall. intros [k x] Hin.
    apply dict_set_In in Hin. destruct Hin as [[-> ->]|Hin]; auto.
    rewrite Forall_forall in Hall. now apply (Hall (k, x)).
Qed.

Lemma add_to_history_representable self entry_type data c self' :
  tracker_representable self -> json_representable data ->
  fst (add_to_history self entry_type data c) = Ok self' ->
  tracker_representable self'.
Proof.
  intros (H1 & H2 & H3 & H4 & H5) Hv. unfold add_to_history.
  destruct (_history self) as [| | | | |h|] eqn:E; try discriminate.
  cbn [fst]. destruct (time_time c) as [now c']. cbn [fst].
  intros [= <-]. unfold tracker_representable.
  cbn [session_id created_at last_updated _state _history].
  refine (conj H1 (conj H2 (conj H3 (conj H4 _)))).
  apply json_representable_list in H5.
  apply json_representable_list. apply Forall_app. split; auto.
  constructor; [|constructor].
  apply json_representable_dict. split.
  - repeat constructor; simpl; intuition discriminate.
  - repeat constructor; auto.
Qed.

(** C9.  For a tracker whose state and history hold values that JSON
    can hold, [from_json] on the text of [to_json] gives a tracker with
    the same state, the same history, and the same times of creation
    and of last update. *)
Theorem from_json_to_json self c :
  tracker_representable self ->
  exists self',
    fst (from_json (to_json self) c) = Ok self' /\
    _state self' = _state self /\
    _history self' = _history self /\
    created_at self' = created_at self /\
    last_updated self' = last_updated self.
Proof.
  intros Hrep. unfold from_json, to_json.
  rewrite (loads_dumps _ (document_representable _ Hrep)).
  change (subscript (document self) "session_id") with (Ok (session_id self)).
  cbv iota beta.
  destruct (new_state_tracker (session_id self) 3600 c) as [tracker c'].
  change (subscript (document self) "created_at")
    with (Ok (created_at self)).
  change (subscript (document self) "last_updated")
    with (Ok (last_updated self)).
  change (subscript (document self) "state") with (Ok (_state self)).
  change (subscript (document self) "history") with (Ok (_history self)).
  cbn [bind fst]. eexists. split; [reflexivity|]. repeat split.
Qed.

(** A session with one entry in its state and one in its history. *)
Definition tracker0 : StateTracker :=
  let '(t0, c0) := new_state_tracker (VStr "s1") 3600 clock0 in
  match update t0 "user" (VStr "ann") c0 with
  | (Ok t1, c1) =>
      match add_to_history t1 "call"
              (VDict [("name", VStr "add"); ("n", VInt 2)]) c1 with
      | (Ok t2, _) => t2
      | (Raise _, _) => t1
      end
  | (Raise _, _) => t0
  end.

Lemma from_json_to_json_witness :
  tracker_representable tracker0 /\
  exists self',
    fst (from_json (to_json tracker0) clock0) = Ok self' /\
    _state self' = _state tracker0 /\
    _history self' = _history tracker0 /\
    created_at self' = created_at tracker0 /\
    last_updated self' = last_updated tracker0.
Proof.
  assert (H : tracker_representable tracker0).
  { unfold tracker_representable. simpl.
    repeat split; repeat constructor; simpl; intuition discriminate. }
  split; [exact H|].
  exact (from_json_to_json tracker0 clock0 H).
Defined.

(** The text of that session. *)
Example to_json_tracker0 :
  to_json tracker0
  = String.concat (String Json.quote EmptyString)
      ["{"; "session_id"; ": "; "s1"; ", "; "created_at";
       ": 1700000000.000000, "; "last_updated";
       ": 1700000000.000001, "; "state"; ": {"; "user"; ": ";
       "ann"; "}, "; "history"; ": [{"; "type"; ": "; "call"; ", ";
       "timestamp"; ": 1700000000.000002, "; "data"; ": {"; "name";
       ": "; "add"; ", "; "n"; ": 2}}]}"].
Proof. vm_compute. reflexivity. Qed.

(** * Further properties *)

(** ** What every registry satisfies *)

(** What the methods of a registry keep true of it. *)
Definition registry_ok (self : FunctionRegistry) : Prop :=
  NoDup (dict_keys (_schemas self)) /\
  names_match self /\
  dict_keys (_functions self) = dict_keys (_schemas self) /\
  incl (dict_keys (_schemas self)) (dict_keys (_call_count self)) /\
  Forall (fun kv => exists properties, schema_wf (snd kv) properties)
    (_schemas self).

Lemma dict_mem_keys {V W : Type} k (d : dict V) (d' : dict W) :
  dict_keys d = dict_keys d' -> dict_mem k d = dict_mem k d'.
Proof.
  intros H. destruct (dict_mem k d') eqn:E.
  - apply dict_mem_in. rewrite H. now apply dict_mem_in.
  - destruct (dict_mem k d) eqn:E'; auto.
    apply dict_mem_in in E'. rewrite H in E'. apply dict_mem_in in E'.
    congruence.
Qed.

Lemma register_ok self func name description priority cooldown :
  registry_ok self ->
  registry_ok (register self func name description priority cooldown).
Proof.
  intros (Hnd & Hnames & Hkeys & Hincl & Hwf).
  split; [now apply register_schemas_NoDup|].
  split; [now apply register_names_match|].
  unfold register. cbn [_functions _schemas _call_count].
  split; [|split].
  - rewrite !dict_keys_set, Hkeys.
    now rewrite (dict_mem_keys _ (_functions self) (_schemas self) Hkeys).
  - intros k Hk. apply dict_keys_set_in in Hk. apply dict_keys_set_in.
    destruct Hk as [->|Hk]; auto.
  - apply Forall_forall. intros [k s] Hin.
    apply dict_set_In in Hin. destruct Hin as [[-> ->]|Hin].
    + apply make_schema_wf.
    + rewrite Forall_forall in Hwf. now apply (Hwf (k, s)).
Qed.

Lemma log_call_ok self name c :
  registry_ok self -> registry_ok (fst (log_call self name c)).
Proof.
  intros (Hnd & Hnames & Hkeys & Hincl & Hwf).
  unfold registry_ok, names_match, log_call, time_time.
  cbn [fst _functions _schemas _call_count].
  repeat split; auto.
  intros k Hk. apply dict_keys_set_in. auto.
Qed.

Lemma registry_step_ok st op :
  registry_ok (fst st) -> registry_ok (fst (registry_step st op)).
Proof.
  destruct st as [self c]. destruct op; cbn [registry_step fst]; auto.
  - apply register_ok.
  - apply log_call_ok.
Qed.

(** X1.  A registry that is built through its methods has one schema for
    each name, kept under the name it bears; its callables and its
    schemas have the same names, in the same order, and each of them has
    a call counter; and every schema is well formed. *)
Theorem registry_invariants ops c0 :
  let self := fst (registry_run ops (new_registry, c0)) in
  NoDup (dict_keys (_schemas self)) /\
  names_match self /\
  dict_keys (_functions self) = dict_keys (_schemas self) /\
  incl (dict_keys (_schemas self)) (dict_keys (_call_count self)) /\
  (forall n schema,
      get_schema self n = Some schema ->
      exists properties, schema_wf schema properties).
Proof.
  cbv zeta.
  assert (H : registry_ok (fst (registry_run ops (new_registry, c0)))).
  { unfold registry_run.
    assert (H0 : registry_ok (fst (new_registry, c0))).
    { cbn. repeat split; auto.
      - constructor.
      - intros k s [].
      - intros k []. }
    generalize dependent (new_registry, c0).
    induction ops as [|op ops IH]; intros st H0; simpl; auto.
    apply IH. now apply registry_step_ok. }
  destruct H as (Hnd & Hnames & Hkeys & Hincl & Hwf).
  repeat split; auto.
  intros n schema Hs. unfold get_schema in Hs.
  apply dict_get_Some_in in Hs. rewrite Forall_forall in Hwf.
  exact (Hwf (n, schema) Hs).
Qed.

(** ** The order of [filter_functions] among equal priorities *)

(** [a] comes before [b] in [l]. *)
Definition comes_before {A : Type} (l : list A) (a b : A) : Prop :=
  exists l1 l2 l3, l = (l1 ++ a :: l2 ++ b :: l3)%list.

Section Stable.
Context {A : Type} (key : A -> Z).

(** The sort leaves the elements of one key in the order they had. *)
Lemma insert_reverse_filter p x l :
  filter (fun y => key y =? p) (insert_reverse key x l)
  = filter (fun y => key y =? p) (x :: l).
Proof.
  induction l as [|y l IH]; [reflexivity|].
  cbn [insert_reverse]. destruct (key x <? key y) eqn:E; [|reflexivity].
  apply Z.ltb_lt in E. cbn [filter] in *. rewrite IH.
  destruct (key x =? p) eqn:Ex; [|reflexivity].
  apply Z.eqb_eq in Ex.
  destruct (key y =? p) eqn:Ey; [|reflexivity].
  apply Z.eqb_eq in Ey. lia.
Qed.

Lemma sorted_reverse_filter p l :
  filter (fun y => key y =? p) (sorted_reverse key l)
  = filter (fun y => key y =? p) l.
Proof.
  induction l as [|x l IH]; [reflexivity|].
  cbn [sorted_reverse fold_right]. rewrite insert_reverse_filter.
  cbn [filter]. unfold sorted_reverse in IH. now rewrite IH.
Qed.
End Stable.

Lemma filter_split {A : Type} (P : A -> bool) l m1 x m2 :
  filter P l = (m1 ++ x :: m2)%list ->
  exists l1 l2,
    l = (l1 ++ x :: l2)%list /\ filter P l1 = m1 /\ filter P l2 = m2.
Proof.
  revert m1. induction l as [|y l IH]; intros m1; simpl.
  - destruct m1; discriminate.
  - destruct (P y) eqn:Ey.
    + destruct m1 as [|z m1]; simpl; intros [= -> H].
      * exists [], l. simpl. auto.
      * destruct (IH _ H) as (l1 & l2 & -> & <- & <-).
        exists (z :: l1), l2. simpl. now rewrite Ey.
    + intros H. destruct (IH _ H) as (l1 & l2 & -> & <- & <-).
      exists (y :: l1), l2. simpl. now rewrite Ey.
Qed.

Lemma comes_before_filter {A : Type} (P : A -> bool) l a b :
  P a = true -> P b = true ->
  (comes_before (filter P l) a b <-> comes_before l a b).
Proof.
  intros Ha Hb. split.
  - intros (m1 & m2 & m3 & H).
    apply filter_split in H. destruct H as (l1 & r & -> & _ & H).
    apply filter_split in H. destruct H as (l2 & l3 & -> & _ & _).
    now exists l1, l2, l3.
  - intros (l1 & l2 & l3 & ->).
    exists (filter P l1), (filter P l2), (filter P l3).
    rewrite filter_app. cbn [filter]. rewrite Ha, filter_app. cbn [filter].
    now rewrite Hb.
Qed.

(** The names the loop keeps are the keys of [_schemas] that it keeps,
    in their order. *)
Lemma filter_loop_keys self context items c :
  NoDup (dict_keys items) ->
  fst (filter_loop self context items c)
  = filter (fun n => str_in n (fst (filter_loop self context items c)))
      (dict_keys items).
Proof.
  revert c. induction items as [|[n s] items IH]; intros c Hnd;
    [reflexivity|].
  inversion Hnd as [|? ? Hnotin Hnd']; subst.
  assert (Hsub : forall c1 x,
             In x (fst (filter_loop self context items c1)) ->
             In x (dict_keys items)).
  { intros c1 x Hx. apply filter_loop_In in Hx.
    destruct Hx as (i & schema & Hn & _). apply nth_error_In in Hn.
    change x with (fst (x, schema)). now apply in_map. }
  cbn [filter_loop]. unfold time_time.
  set (c1 := {| readings := readings c; reads := S (reads c) |}).
  specialize (IH c1 Hnd'). specialize (Hsub c1).
  destruct (filter_loop self context items c1) as [available c2].
  cbn [fst] in *.
  destruct (is_available self context n s (readings c (reads c))).
  - cbn [dict_keys map fst filter].
    replace (str_in n (n :: available)) with true
      by (symmetry; apply str_in_In; now left).
    f_equal. rewrite IH at 1. apply filter_ext_in. intros k Hk.
    unfold str_in. cbn [existsb].
    destruct (String.eqb k n) eqn:E; [|reflexivity].
    apply String.eqb_eq in E. subst k. contradiction.
  - cbn [dict_keys map fst filter].
    destruct (str_in n available) eqn:E; [|exact IH].
    apply str_in_In in E. apply Hsub in E. contradiction.
Qed.

(** X2.  Among the names [filter_functions] returns, two names of the same
    priority come in the order of their registration. *)
Theorem filter_functions_stable self context c a b :
  NoDup (dict_keys (_schemas self)) ->
  let names := fst (filter_functions self context c) in
  In a names -> In b names ->
  priority_of self a = priority_of self b ->
  comes_before (dict_keys (_schemas self)) a b ->
  comes_before names a b.
Proof.
  intros Hnd. cbv zeta. unfold filter_functions.
  pose proof (filter_loop_keys self context (_schemas self) c Hnd) as Hkeys.
  destruct (filter_loop self context (_schemas self) c)
    as [available c'].
  cbn [fst] in *. rewrite !sorted_reverse_In.
  intros Ha Hb Hp Hbefore.
  apply (comes_before_filter
           (fun n => priority_of self n =? priority_of self a)).
  - apply Z.eqb_refl.
  - apply Z.eqb_eq. now symmetry.
  - rewrite sorted_reverse_filter.
    apply comes_before_filter.
    + apply Z.eqb_refl.
    + apply Z.eqb_eq. now symmetry.
    + rewrite Hkeys. apply comes_before_filter.
      * now apply str_in_In.
      * now apply str_in_In.
      * exact Hbefore.
Qed.

Lemma filter_functions_stable_witness :
  NoDup (dict_keys (_schemas (registry caller0))) /\
  let names := fst (filter_functions (registry caller0) [] clock0) in
  In "add" names /\ In "leave" names /\
  priority_of (registry caller0) "add"
  = priority_of (registry caller0) "leave" /\
  comes_before (dict_keys (_schemas (registry caller0))) "add" "leave" /\
  comes_before names "add" "leave".
Proof.
  split; [exact caller0_NoDup|]. cbv zeta.
  assert (Ha : In "add" (fst (filter_functions (registry caller0) [] clock0)))
    by (vm_compute; tauto).
  assert (Hb : In "leave"
                 (fst (filter_functions (registry caller0) [] clock0)))
    by (vm_compute; tauto).
  assert (Hk : comes_before (dict_keys (_schemas (registry caller0)))
                 "add" "leave")
    by (exists [], ["ping"; "boom"], []; reflexivity).
  split; [exact Ha|]. split; [exact Hb|]. split; [reflexivity|].
  split; [exact Hk|].
  exact (filter_functions_stable (registry caller0) [] clock0 "add" "leave"
           caller0_NoDup Ha Hb eq_refl Hk).
Defined.

(** ** Eligibility as time passes *)

(** X3.  While nothing is recorded, eligibility only grows with time: the
    names [filter_functions] returns on a clock are returned on every
    clock whose readings are, one for one, not earlier. *)
Theorem filter_functions_monotone self context c1 c2 name :
  (forall i,
      readings c1 (reads c1 + i)%nat <= readings c2 (reads c2 + i)%nat) ->
  In name (fst (filter_functions self context c1)) ->
  In name (fst (filter_functions self context c2)).
Proof.
  intros Hlater. rewrite !filter_functions_In.
  intros (i & schema & Hn & Hmet & Hcool).
  exists i, schema. split; [exact Hn|]. split; [exact Hmet|].
  specialize (Hlater i). lia.
Qed.

Lemma filter_functions_monotone_witness :
  (forall i,
      readings clock0 (reads clock0 + i)%nat
      <= readings clock1 (reads clock1 + i)%nat) /\
  In "ping" (fst (filter_functions (registry caller0) [] clock0)) /\
  In "ping" (fst (filter_functions (registry caller0) [] clock1)).
Proof.
  assert (H1 : forall i,
             readings clock0 (reads clock0 + i)%nat
             <= readings clock1 (reads clock1 + i)%nat).
  { intros i. unfold clock0, clock1. cbn [readings reads]. lia. }
  assert (H2 : In "ping" (fst (filter_functions (registry caller0) []
                                 clock0)))
    by (vm_compute; tauto).
  split; [exact H1|]. split; [exact H2|].
  exact (filter_functions_monotone (registry caller0) [] clock0 clock1
           "ping" H1 H2).
Defined.

(** ** The context requirements of registered callables *)

Definition no_requirements (self : FunctionRegistry) : Prop :=
  Forall (fun kv => FunctionSchema.context_requirements (snd kv) = [])
    (_schemas self).

Lemma make_schema_requirements func name description priority cooldown :
  FunctionSchema.context_requirements
    (make_schema func name description priority cooldown) = [].
Proof.
  unfold make_schema.
  now destruct (fold_left register_param (fn_signature func) ([], [])).
Qed.

Lemma registry_step_no_requirements st op :
  no_requirements (fst st) -> no_requirements (fst (registry_step st op)).
Proof.
  destruct st as [self c]. unfold no_requirements.
  destruct op; cbn [registry_step fst]; auto.
  intros H. unfold register. cbn [_schemas].
  apply Forall_forall. intros [k s] Hin.
  apply dict_set_In in Hin. destruct Hin as [[-> ->]|Hin].
  - apply make_schema_requirements.
  - rewrite Forall_forall in H. now apply (H (k, s)).
Qed.

Lemma registry_run_no_requirements ops st :
  no_requirements (fst st) -> no_requirements (fst (registry_run ops st)).
Proof.
  unfold registry_run. revert st.
  induction ops as [|op ops IH]; intros st H; simpl; auto.
  apply IH. now apply registry_step_no_requirements.
Qed.

Lemma filter_loop_context self context context' items c :
  Forall (fun kv => FunctionSchema.context_requirements (snd kv) = []) items ->
  filter_loop self context items c = filter_loop self context' items c.
Proof.
  revert c. induction items as [|[n s] items IH]; intros c H;
    [reflexivity|].
  inversion H as [|? ? Hs H']; subst. cbn [snd] in Hs.
  cbn [filter_loop]. unfold time_time. rewrite (IH _ H').
  unfold is_available. now rewrite Hs.
Qed.

(** X4.  [register] gives a schema no context requirement, and no method of
    the registry sets one: for a registry that is built through its
    methods, [filter_functions] returns the same names whatever the
    context is. *)
Theorem context_never_restricts ops c0 context context' c :
  let self := fst (registry_run ops (new_registry, c0)) in
  filter_functions self context c = filter_functions self context' c.
Proof.
  cbv zeta. unfold filter_functions.
  rewrite (filter_loop_context _ context context'); [reflexivity|].
  apply (registry_run_no_requirements ops (new_registry, c0)).
  constructor.
Qed.

(** ** Registration and lookup *)

Lemma fold_register_param_required sig params required :
  snd (fold_left register_param sig (params, required))
  = (required
     ++ map param_name
          (filter (fun p => negb (param_has_default p)) sig))%list.
Proof.
  revert params required.
  induction sig as [|p sig IH]; intros params required; simpl.
  - now rewrite app_nil_r.
  - rewrite IH. destruct (param_has_default p); simpl; auto.
    now rewrite <- app_assoc.
Qed.

Lemma make_schema_required func name description priority cooldown :
  FunctionSchema.required_params
    (make_schema func name description priority cooldown)
  = snd (fold_left register_param (fn_signature func) ([], [])).
Proof.
  unfold make_schema.
  now destruct (fold_left register_param (fn_signature func) ([], [])).
Qed.

(** X5.  After [register], the callable and its schema are found under the
    name given, or under the name of the callable when no name or an
    empty one is given.  The schema has the priority and the cool-down
    given, and its required parameters are the parameters without a
    default, in the order of the signature.  What is found under any
    other name, and the last call times, are as before. *)
Theorem register_lookup self func name description priority cooldown :
  let n := str_or name (fn_name func) in
  let self' := register self func name description priority cooldown in
  get_function self' n = Some func /\
  (exists schema,
      get_schema self' n = Some schema /\
      FunctionSchema.name schema = n /\
      FunctionSchema.priority schema = priority /\
      FunctionSchema.cooldown schema = cooldown /\
      FunctionSchema.required_params schema
      = map param_name
          (filter (fun p => negb (param_has_default p))
             (fn_signature func))) /\
  (forall n',
      n' <> n ->
      get_function self' n' = get_function self n' /\
      get_schema self' n' = get_schema self n' /\
      call_count self' n' = call_count self n') /\
  _last_called self' = _last_called self.
Proof.
  cbv zeta. unfold get_function, get_schema, call_count, dict_get_default,
    register. cbn [_functions _schemas _call_count _last_called].
  split; [apply dict_get_set_eq|]. split; [|split; [|reflexivity]].
  - eexists. split; [apply dict_get_set_eq|].
    rewrite make_schema_required, fold_register_param_required.
    unfold make_schema.
    destruct (fold_left register_param (fn_signature func) ([], []))
      as [params required].
    repeat split.
  - intros n' Hne. rewrite !dict_get_set_neq by congruence. auto.
Qed.

(** ** The type a registered parameter is validated for *)

(** The Python type that stands for an annotation: the type itself for
    [str], [int], [float] and [bool], [list] for a list, [dict] for a
    dictionary, and [str] when there is no annotation or any other
    one. *)
Definition annotation_type (a : option annotation) : Pydantic.pytype :=
  match a with
  | Some Ann_int => Pydantic.Tint
  | Some Ann_float => Pydantic.Tfloat
  | Some Ann_bool => Pydantic.Tbool
  | Some Ann_List_str | Some Ann_List_int => Pydantic.Tlist
  | Some Ann_Dict_str_Any => Pydantic.Tdict
  | Some Ann_str | Some Ann_other | None => Pydantic.Tstr
  end.

(** The property [register] makes for a parameter. *)
Definition property_of (p : SigParameter) : value :=
  VDict (dict_set "description" (VStr ("Parameter " ++ param_name p))
           match param_annotation p with
           | None => [("type", VStr "string")]
           | Some a => _get_type_schema a
           end).

Lemma register_param_get acc p :
  dict_get (param_name p) (fst (register_param acc p)) = Some (property_of p).
Proof.
  destruct acc as [params required]. unfold register_param. cbn [fst].
  apply dict_get_set_eq.
Qed.

Lemma register_param_get_other acc p k :
  k <> param_name p ->
  dict_get k (fst (register_param acc p)) = dict_get k (fst acc).
Proof.
  destruct acc as [params required]. unfold register_param. cbn [fst].
  intros Hne. apply dict_get_set_neq. congruence.
Qed.

Lemma fold_register_param_get_other sig acc k :
  ~ In k (map param_name sig) ->
  dict_get k (fst (fold_left register_param sig acc)) = dict_get k (fst acc).
Proof.
  revert acc. induction sig as [|q sig IH]; intros acc Hk; simpl; auto.
  rewrite IH by (intros H; apply Hk; now right).
  apply register_param_get_other. intros ->. apply Hk. now left.
Qed.

Lemma fold_register_param_get sig acc p :
  NoDup (map param_name sig) -> In p sig ->
  dict_get (param_name p) (fst (fold_left register_param sig acc))
  = Some (property_of p).
Proof.
  revert acc. induction sig as [|q sig IH]; intros acc Hnd Hin; [easy|].
  inversion Hnd as [|? ? Hnotin Hnd']; subst. simpl.
  destruct Hin as [->|Hin].
  - rewrite fold_register_param_get_other by assumption.
    apply register_param_get.
  - now apply IH.
Qed.

Lemma python_type_property_of p :
  python_type (property_of p) = annotation_type (param_annotation p).
Proof.
  unfold property_of. destruct (param_annotation p) as [[]|]; reflexivity.
Qed.

(** X6.  For a callable registered by [register], the property of each
    parameter of the signature is in the schema, and the type
    [build_parameters] validates the parameter for is the type of its
    annotation: [str] when the parameter has no annotation or one that
    [_get_type_schema] does not know, and [list] for a list whatever the
    type of its elements. *)
Theorem registered_parameter_type
    func name description priority cooldown p :
  NoDup (map param_name (fn_signature func)) ->
  In p (fn_signature func) ->
  exists properties prop,
    get_properties (make_schema func name description priority cooldown)
    = Ok properties /\
    dict_get (param_name p) properties = Some prop /\
    python_type prop = annotation_type (param_annotation p).
Proof.
  intros Hnd Hin.
  exists (fst (fold_left register_param (fn_signature func) ([], []))),
    (property_of p).
  split; [|split].
  - unfold make_schema.
    now destruct (fold_left register_param (fn_signature func) ([], [])).
  - now apply fold_register_param_get.
  - apply python_type_property_of.
Qed.

Lemma registered_parameter_type_witness :
  let p := {| param_name := "xs"; param_annotation := Some Ann_List_int;
              param_has_default := false |} in
  NoDup (map param_name (fn_signature total)) /\
  In p (fn_signature total) /\
  exists properties prop,
    get_properties (make_schema total None None 5 0) = Ok properties /\
    dict_get (param_name p) properties = Some prop /\
    python_type prop = annotation_type (param_annotation p).
Proof.
  cbv zeta.
  assert (H1 : NoDup (map param_name (fn_signature total))).
  { repeat constructor; simpl; intuition discriminate. }
  assert (H2 : In {| param_name := "xs";
                     param_annotation := Some Ann_List_int;
                     param_has_default := false |} (fn_signature total))
    by (now left).
  split; [exact H1|]. split; [exact H2|].
  exact (registered_parameter_type total None None 5 0 _ H1 H2).
Defined.

(** ** The dictionary [build_parameters] returns *)






(** ** The call of a registered callable *)






(** With its second argument left out, [add] is called with [None] for
    it, and the sum fails. *)
Example add_without_b :
  fst (fst (execute_function_call caller0
              (request "add" (Some (VDict [("a", VInt 1)]))) None clock0))
  = Returned (failure "unsupported operand type(s) for +").
Proof. vm_compute. reflexivity. Qed.

(** ** What a dispatch changes *)

(** The response of a call that returned [result], timed on the clock
    [c1] read at its start and at its end. *)
Definition success (result : value) (c1 : Clock) : dict value :=
  [("result", result);
   ("execution_time",
    seconds (readings c1 (S (reads c1)) - readings c1 (reads c1)));
   ("success", VBool true)].

(** The key of [_results_cache] for a call. *)
Definition cache_key (function_name : string) (params : dict value)
  : string :=
  function_name ++ ":" ++ Json.dumps_sorted (VDict params).

Lemma success_is_success result c1 : is_success (success result c1).
Proof. repeat split. Qed.

Lemma failure_not_success message : ~ is_success (failure message).
Proof. intros (_ & _ & H & _). discriminate. Qed.

(** All that the [try] block gives, by what the validation and the
    callable do. *)
Lemma try_call_eq self n func function_args c :
  let c1 := snd (log_call (registry self) n c) in
  let recorded :=
    {| registry := fst (log_call (registry self) n c);
       _results_cache := _results_cache self |} in
  try_call self n func function_args c =
  match build_parameters (registry self) n function_args with
  | Raise e => (Returned (failure (exn_str e)), self, c)
  | Ok validated =>
      match call_function func validated with
      | Returns result =>
          (Returned (success result c1),
           {| registry := fst (log_call (registry self) n c);
              _results_cache :=
                dict_set (cache_key n validated) (success result c1)
                  (_results_cache self) |},
           {| readings := readings c1; reads := S (S (reads c1)) |})
      | Raises e =>
          (if is_Exception e then Returned (failure (exn_str e))
           else Propagated e,
           recorded,
           {| readings := readings c1; reads := S (reads c1) |})
      end
  end.
Proof.
  cbv zeta. unfold try_call.
  destruct (build_parameters _ n _) as [validated|e] eqn:Hb.
  - destruct (log_call _ n c) as [registry' c1]. cbn [fst snd].
    unfold time_time.
    destruct (call_function func validated) as [result|e].
    + reflexivity.
    + destruct (is_Exception e); reflexivity.
  - now rewrite (build_parameters_is_Exception _ _ _ _ Hb).
Qed.

Lemma log_call_schemas self name c :
  _functions (fst (log_call self name c)) = _functions self /\
  _schemas (fst (log_call self name c)) = _schemas self.
Proof. unfold log_call, time_time. cbn. auto. Qed.

Lemma log_call_last_call_time self name c n :
  n <> name ->
  last_call_time (fst (log_call self name c)) n = last_call_time self n.
Proof.
  intros Hne. unfold last_call_time, dict_get_default, log_call, time_time.
  cbn [fst _last_called]. rewrite dict_get_set_neq; auto.
Qed.

(** X9.  A dispatch never adds, removes or replaces a registration; it
    changes the call counter and the last call time of no callable but
    the one it names; and it writes to the cache of results only when it
    returns a success. *)
Theorem dispatch_effects self call_data context c :
  let out := execute_function_call self call_data context c in
  let self' := snd (fst out) in
  _functions (registry self') = _functions (registry self) /\
  _schemas (registry self') = _schemas (registry self) /\
  (forall n,
      call_name call_data <> Some n ->
      call_count (registry self') n = call_count (registry self) n /\
      last_call_time (registry self') n = last_call_time (registry self) n) /\
  (_results_cache self' <> _results_cache self ->
   exists response,
     fst (fst out) = Returned response /\ is_success response).
Proof.
  cbv zeta.
  destruct (execute_function_call_cases self call_data context c)
    as [(message & ->)|(n & func & Hd)].
  { cbn [fst snd]. repeat split; auto. intros H. now elim H. }
  rewrite (execute_function_call_dispatched _ _ _ _ _ _ Hd).
  destruct Hd as (Hname & _ & _).
  set (c1 := clock_at_try self context c).
  pose proof (log_call_schemas (registry self) n c1) as [Hf Hs].
  assert (Hother : forall n',
             call_name call_data <> Some n' ->
             call_count (fst (log_call (registry self) n c1)) n'
             = call_count (registry self) n' /\
             last_call_time (fst (log_call (registry self) n c1)) n'
             = last_call_time (registry self) n').
  { intros n' Hne. assert (n' <> n) by congruence. split.
    - rewrite log_call_call_count.
      destruct (String.eqb n n') eqn:E; [|reflexivity].
      apply String.eqb_eq in E. congruence.
    - now apply log_call_last_call_time. }
  rewrite try_call_eq.
  destruct (build_parameters _ n _) as [validated|e].
  - destruct (call_function func validated) as [result|e];
      cbn [fst snd registry _results_cache].
    + repeat split; auto; try apply Hother; auto.
      intros _. eexists. split; [reflexivity|]. apply success_is_success.
    + repeat split; auto; try apply Hother; auto. intros H. now elim H.
  - cbn [fst snd]. repeat split; auto. intros H. now elim H.
Qed.

(** ** The cache of results *)

(** X10.  After a dispatch that returns a success, the response is in the
    cache of results under the name of the callable and the validated
    parameters: [get_cached_result] returns it. *)
Theorem cached_after_success self call_data context c response :
  let out := execute_function_call self call_data context c in
  fst (fst out) = Returned response ->
  is_success response ->
  exists n validated,
    call_name call_data = Some n /\
    build_parameters (registry self) n (decode_arguments call_data)
    = Ok validated /\
    get_cached_result (snd (fst out)) n (VDict validated) = Some response.
Proof.
  cbv zeta.
  destruct (execute_function_call_cases self call_data context c)
    as [(message & ->)|(n & func & Hd)].
  { cbn [fst]. intros [= <-] H. now apply failure_not_success in H. }
  rewrite (execute_function_call_dispatched _ _ _ _ _ _ Hd).
  destruct Hd as (Hname & _ & _).
  rewrite try_call_eq.
  destruct (build_parameters _ n _) as [validated|e] eqn:Hb.
  - destruct (call_function func validated) as [result|e]; cbn [fst snd].
    + intros [= <-] _. exists n, validated.
      split; [exact Hname|]. split; [exact Hb|].
      unfold get_cached_result. cbn [_results_cache].
      apply dict_get_set_eq.
    + destruct (is_Exception e); [|discriminate].
      intros [= <-] H. now apply failure_not_success in H.
  - cbn [fst]. intros [= <-] H. now apply failure_not_success in H.
Qed.

Lemma cached_after_success_witness :
  let call_data :=
    request "add" (Some (VDict [("b", VStr "3"); ("a", VInt 2)])) in
  let out := execute_function_call caller0 call_data None clock0 in
  let response :=
    [("result", VInt 5); ("execution_time", seconds 1);
     ("success", VBool true)] in
  fst (fst out) = Returned response /\
  is_success response /\
  exists n validated,
    call_name call_data = Some n /\
    build_parameters (registry caller0) n (decode_arguments call_data)
    = Ok validated /\
    get_cached_result (snd (fst out)) n (VDict validated) = Some response.
Proof.
  cbv zeta.
  assert (H1 : fst (fst (execute_function_call caller0
                           (request "add"
                              (Some (VDict [("b", VStr "3"); ("a", VInt 2)])))
                           None clock0))
               = Returned [("result", VInt 5); ("execution_time", seconds 1);
                           ("success", VBool true)])
    by (vm_compute; reflexivity).
  assert (H2 : is_success [("result", VInt 5); ("execution_time", seconds 1);
                           ("success", VBool true)])
    by (repeat split).
  split; [exact H1|]. split; [exact H2|].
  exact (cached_after_success caller0 _ None clock0 _ H1 H2).
Defined.

(** ** The cool-down after a call *)

Lemma clock_at_try_readings self context c :
  readings (clock_at_try self context c) = readings c.
Proof.
  unfold clock_at_try, filter_functions.
  destruct (filter_loop (registry self) (context_or_empty context)
              (_schemas (registry self)) c) as [available c'] eqn:E.
  cbn [snd]. change c' with (snd (available, c')). rewrite <- E.
  apply filter_loop_readings.
Qed.

(** X11.  After a dispatch of a callable that returned a success, a dispatch
    of the same callable is refused as long as the clock reads less
    than the cool-down past the readings of the first dispatch; the
    refusal changes nothing. *)
Theorem cooldown_enforced
    self call_data context c response n schema call_data2 context2 c2 :
  let out := execute_function_call self call_data context c in
  let self' := snd (fst out) in
  NoDup (dict_keys (_schemas (registry self))) ->
  call_name call_data = Some n ->
  get_schema (registry self) n = Some schema ->
  fst (fst out) = Returned response ->
  is_success response ->
  call_name call_data2 = Some n ->
  (forall i j, readings c2 j < readings c i + FunctionSchema.cooldown schema) ->
  execute_function_call self' call_data2 context2 c2 =
  (Returned (failure ("Function " ++ n
                      ++ " is not available in current context")),
   self', clock_at_try self' context2 c2).
Proof.
  cbv zeta. intros Hnd Hname Hschema.
  destruct (execute_function_call_cases self call_data context c)
    as [(message & ->)|(n' & func & Hd)].
  { cbn [fst]. intros [= <-] H. now apply failure_not_success in H. }
  assert (n' = n) by (destruct Hd as (H & _); congruence). subst n'.
  rewrite (execute_function_call_dispatched _ _ _ _ _ _ Hd).
  destruct Hd as (_ & Hfunc & _).
  set (c1 := clock_at_try self context c).
  rewrite try_call_eq.
  destruct (build_parameters _ n _) as [validated|e];
    [|cbn [fst]; intros [= <-] H; now apply failure_not_success in H].
  destruct (call_function func validated) as [result|e]; cbn [fst snd];
    [|destruct (is_Exception e); [|discriminate];
      intros [= <-] H; now apply failure_not_success in H].
  intros _ _ Hname2 Hsoon.
  set (self' := {| registry := fst (log_call (registry self) n c1);
                   _results_cache := _ |}).
  pose proof (log_call_schemas (registry self) n c1) as [Hf Hs].
  unfold execute_function_call, clock_at_try. rewrite Hname2.
  unfold get_function. cbn [registry self']. rewrite Hf.
  unfold get_function in Hfunc. rewrite Hfunc. cbn [option_map].
  destruct (filter_functions (fst (log_call (registry self) n c1))
              (context_or_empty context2) c2) as [available c'] eqn:E.
  cbn [snd].
  destruct (str_in n available) eqn:Hin; [|reflexivity].
  exfalso. apply str_in_In in Hin.
  change available with (fst (available, c')) in Hin. rewrite <- E in Hin.
  apply filter_functions_In in Hin.
  destruct Hin as (i & schema' & Hn & _ & Hcool).
  rewrite Hs in Hn. apply nth_error_In in Hn.
  apply (dict_in_get _ _ _ Hnd) in Hn.
  unfold get_schema in Hschema. assert (schema' = schema) by congruence.
  subst schema'.
  unfold last_call_time, dict_get_default in Hcool.
  rewrite log_call_last_called in Hcool.
  unfold c1 in Hcool. rewrite clock_at_try_readings in Hcool.
  specialize (Hsoon (reads (clock_at_try self context c))
                (reads c2 + i)%nat).
  lia.
Qed.

Lemma cooldown_enforced_witness :
  let call_data := request "ping" None in
  let out := execute_function_call caller0 call_data None clock0 in
  let self' := snd (fst out) in
  let response :=
    [("result", VStr "pong"); ("execution_time", seconds 1);
     ("success", VBool true)] in
  let c2 := {| readings := fun _ => 1700000005000000; reads := 0 |} in
  exists schema,
    NoDup (dict_keys (_schemas (registry caller0))) /\
    call_name call_data = Some "ping" /\
    get_schema (registry caller0) "ping" = Some schema /\
    fst (fst out) = Returned response /\
    is_success response /\
    (forall i j,
        readings c2 j < readings clock0 i + FunctionSchema.cooldown schema) /\
    execute_function_call self' call_data None c2 =
    (Returned (failure "Function ping is not available in current context"),
     self', clock_at_try self' None c2).
Proof.
  cbv zeta. eexists.
  assert (Hs : get_schema (registry caller0) "ping"
               = Some (make_schema ping None None 7 10000000))
    by reflexivity.
  assert (H1 : fst (fst (execute_function_call caller0 (request "ping" None)
                           None clock0))
               = Returned [("result", VStr "pong");
                           ("execution_time", seconds 1);
                           ("success", VBool true)])
    by (vm_compute; reflexivity).
  assert (H2 : is_success [("result", VStr "pong");
                           ("execution_time", seconds 1);
                           ("success", VBool true)])
    by (repeat split).
  assert (H3 : forall (i j : nat),
             readings {| readings := fun _ => 1700000005000000;
                         reads := 0 |} j
             < readings clock0 i
               + FunctionSchema.cooldown
                   (make_schema ping None None 7 10000000)).
  { intros i j. unfold clock0. cbn [readings].
    change (FunctionSchema.cooldown (make_schema ping None None 7 10000000))
      with 10000000.
    lia. }
  split; [exact caller0_NoDup|]. split; [reflexivity|].
  split; [exact Hs|]. split; [exact H1|]. split; [exact H2|].
  split; [exact H3|].
  exact (cooldown_enforced caller0 (request "ping" None) None clock0 _
           "ping" _ (request "ping" None) None _
           caller0_NoDup eq_refl Hs H1 H2 eq_refl H3).
Defined.

(** ** What is offered can be called *)

Lemma desc_names_filter_In available descs n :
  In n (desc_names (filter (is_offered available) descs)) ->
  In n available.
Proof.
  unfold desc_names. rewrite in_flat_map.
  intros (desc & Hdesc & Hn). apply filter_In in Hdesc.
  destruct Hdesc as [_ Hoff]. unfold is_offered in Hoff.
  destruct (desc_name desc) as [n'|]; [|contradiction].
  destruct Hn as [<-|[]]. now apply str_in_In.
Qed.

(** X12.  A callable whose description [prepare_for_llm] returns, whatever
    the cache of descriptions holds, is not refused by a dispatch made
    later in the same context, provided that nothing was recorded in
    between and the clock did not go back: the dispatch reaches the
    validation of the parameters. *)
Theorem offered_is_dispatched
    cache id self context c1 call_data c2 n func :
  In n (desc_names (fst (fst (prepare_for_llm cache id self context c1)))) ->
  (forall i,
      readings c1 (reads c1 + i)%nat <= readings c2 (reads c2 + i)%nat) ->
  call_name call_data = Some n ->
  get_function (registry self) n = Some func ->
  execute_function_call self call_data context c2 =
  try_call self n func (decode_arguments call_data)
    (clock_at_try self context c2).
Proof.
  intros Hoffered Hlater Hname Hfunc.
  apply execute_function_call_dispatched.
  split; [exact Hname|]. split; [exact Hfunc|].
  rewrite prepare_for_llm_eq in Hoffered. cbn [fst] in Hoffered.
  apply desc_names_filter_In in Hoffered.
  apply filter_functions_In in Hoffered. apply filter_functions_In.
  destruct Hoffered as (i & schema & Hn & Hmet & Hcool).
  exists i, schema. split; [exact Hn|]. split; [exact Hmet|].
  specialize (Hlater i). lia.
Qed.

Lemma offered_is_dispatched_witness :
  In "add" (desc_names
              (fst (fst (prepare_for_llm [] 0 caller0 None clock0)))) /\
  (forall i,
      readings clock0 (reads clock0 + i)%nat
      <= readings clock1 (reads clock1 + i)%nat) /\
  call_name (request "add" None) = Some "add" /\
  get_function (registry caller0) "add" = Some add /\
  execute_function_call caller0 (request "add" None) None clock1 =
  try_call caller0 "add" add (decode_arguments (request "add" None))
    (clock_at_try caller0 None clock1).
Proof.
  assert (H1 : In "add"
                 (desc_names
                    (fst (fst (prepare_for_llm [] 0 caller0 None clock0)))))
    by (vm_compute; tauto).
  assert (H2 : forall i,
             readings clock0 (reads clock0 + i)%nat
             <= readings clock1 (reads clock1 + i)%nat).
  { intros i. unfold clock0, clock1. cbn [readings reads]. lia. }
  split; [exact H1|]. split; [exact H2|]. split; [reflexivity|].
  split; [reflexivity|].
  exact (offered_is_dispatched [] 0 caller0 None clock0 (request "add" None)
           clock1 "add" add H1 H2 eq_refl eq_refl).
Defined.

(** ** Arguments given as a JSON text *)

(** X13.  A dispatch whose arguments are the JSON text of a dictionary does
    what the dispatch of the dictionary itself does. *)
Theorem serialized_arguments self name d context c :
  json_representable (VDict d) ->
  execute_function_call self
    {| call_name := name;
       call_arguments := Some (VStr (Json.dumps (VDict d))) |} context c
  = execute_function_call self
      {| call_name := name; call_arguments := Some (VDict d) |} context c.
Proof.
  intros Hrep. unfold execute_function_call, decode_arguments.
  cbn [call_name call_arguments]. now rewrite (loads_dumps _ Hrep).
Qed.

Lemma serialized_arguments_witness :
  let d := [("a", VInt 2); ("b", VStr "3")] in
  json_representable (VDict d) /\
  execute_function_call caller0
    {| call_name := Some "add";
       call_arguments := Some (VStr (Json.dumps (VDict d))) |} None clock0
  = execute_function_call caller0
      {| call_name := Some "add"; call_arguments := Some (VDict d) |}
      None clock0.
Proof.
  cbv zeta.
  assert (H : json_representable (VDict [("a", VInt 2); ("b", VStr "3")])).
  { split; [|simpl; tauto].
    repeat constructor; simpl; intuition discriminate. }
  split; [exact H|].
  exact (serialized_arguments caller0 (Some "add") _ None clock0 H).
Defined.

(** ** The order of the parameters in the key of the cache *)

Lemma ascii_compare_Lt_trans a b c :
  Ascii.compare a b = Lt -> Ascii.compare b c = Lt -> Ascii.compare a c = Lt.
Proof.
  unfold Ascii.compare. rewrite !N.compare_lt_iff. lia.
Qed.

Lemma ascii_compare_refl a : Ascii.compare a a = Eq.
Proof. unfold Ascii.compare. apply N.compare_refl. Qed.

Lemma string_compare_Lt_trans s1 s2 s3 :
  String.compare s1 s2 = Lt -> String.compare s2 s3 = Lt ->
  String.compare s1 s3 = Lt.
Proof.
  revert s2 s3. induction s1 as [|a s1 IH]; intros [|b s2] [|c s3]; simpl;
    try discriminate; auto.
  destruct (Ascii.compare a b) eqn:Eab; try discriminate;
    destruct (Ascii.compare b c) eqn:Ebc; try discriminate.
  - apply Ascii.compare_eq_iff in Eab, Ebc. subst.
    rewrite ascii_compare_refl. apply IH.
  - apply Ascii.compare_eq_iff in Eab. subst. now rewrite Ebc.
  - apply Ascii.compare_eq_iff in Ebc. subst. now rewrite Eab.
  - now rewrite (ascii_compare_Lt_trans _ _ _ Eab Ebc).
Qed.

Lemma string_leb_trans s1 s2 s3 :
  String.leb s1 s2 = true -> String.leb s2 s3 = true ->
  String.leb s1 s3 = true.
Proof.
  unfold String.leb.
  destruct (String.compare s1 s2) eqn:E12; try discriminate;
    destruct (String.compare s2 s3) eqn:E23; try discriminate; intros _ _.
  - apply String.compare_eq_iff in E12, E23. subst.
    pose proof (String.compare_antisym s3 s3) as Ha.
    destruct (String.compare s3 s3); auto; discriminate.
  - apply String.compare_eq_iff in E12. subst. now rewrite E23.
  - apply String.compare_eq_iff in E23. subst. now rewrite E12.
  - now rewrite (string_compare_Lt_trans _ _ _ E12 E23).
Qed.

Lemma string_leb_false s1 s2 :
  s1 <> s2 -> String.leb s1 s2 = true -> String.leb s2 s1 = false.
Proof.
  intros Hne H. destruct (String.leb s2 s1) eqn:E; auto.
  elim Hne. now apply String.leb_antisym.
Qed.

Lemma string_leb_true s1 s2 :
  String.leb s1 s2 = false -> String.leb s2 s1 = true.
Proof.
  intros H. destruct (String.leb_total s1 s2) as [H'|H']; congruence.
Qed.

(** Two entries with different keys go into a dictionary sorted by key
    in either order with the same result. *)
Lemma insert_key_comm a b d :
  fst a <> fst b ->
  Json.insert_key a (Json.insert_key b d)
  = Json.insert_key b (Json.insert_key a d).
Proof.
  intros Hne. induction d as [|y d IH]; cbn [Json.insert_key].
  - destruct (String.leb (fst a) (fst b)) eqn:Eab.
    + now rewrite (string_leb_false _ _ Hne Eab).
    + now rewrite (string_leb_true _ _ Eab).
  - destruct (String.leb (fst b) (fst y)) eqn:Eby;
      destruct (String.leb (fst a) (fst y)) eqn:Eay;
      cbn [Json.insert_key]; rewrite ?Eby, ?Eay.
    + destruct (String.leb (fst a) (fst b)) eqn:Eab.
      * now rewrite (string_leb_false _ _ Hne Eab).
      * now rewrite (string_leb_true _ _ Eab).
    + assert (Eab : String.leb (fst a) (fst b) = false).
      { destruct (String.leb (fst a) (fst b)) eqn:E; auto.
        rewrite (string_leb_trans _ _ _ E Eby) in Eay. discriminate. }
      now rewrite Eab.
    + assert (Eba : String.leb (fst b) (fst a) = false).
      { destruct (String.leb (fst b) (fst a)) eqn:E; auto.
        rewrite (string_leb_trans _ _ _ E Eay) in Eby. discriminate. }
      now rewrite Eba.
    + now rewrite IH.
Qed.

(** The step of [sort_keys] on a dictionary. *)
Definition sort_step (kv : string * value) (acc : list (string * value))
  : list (string * value) :=
  let '(k, v') := kv in Json.insert_key (k, Json.sort_keys v') acc.

Lemma sort_step_comm x y acc :
  fst x <> fst y ->
  sort_step x (sort_step y acc) = sort_step y (sort_step x acc).
Proof.
  destruct x as [k v], y as [k' v']. unfold sort_step. cbn [fst].
  intros Hne. now apply insert_key_comm.
Qed.

Lemma sort_keys_permutation d d' :
  Permutation d d' -> NoDup (dict_keys d) ->
  Json.sort_keys (VDict d) = Json.sort_keys (VDict d').
Proof.
  intros Hperm Hnd.
  assert (H : fold_right sort_step [] d = fold_right sort_step [] d').
  { induction Hperm as [|x l l' Hp IH|x y l|l l' l'' Hp1 IH1 Hp2 IH2].
    - reflexivity.
    - inversion Hnd; subst. cbn [fold_right]. now rewrite IH.
    - cbn [fold_right]. apply sort_step_comm.
      inversion Hnd as [|? ? Hnotin _]; subst. cbn in Hnotin.
      intros E. apply Hnotin. left. now symmetry.
    - rewrite IH1 by assumption. apply IH2.
      eapply Permutation_NoDup; [|exact Hnd].
      unfold dict_keys. now apply Permutation_map. }
  cbn [Json.sort_keys]. f_equal. exact H.
Qed.

(** X14.  The key of the cache of results does not depend on the order of the
    parameters: [get_cached_result] gives the same answer for two
    dictionaries that hold the same items in different orders. *)
Theorem get_cached_result_order self function_name d d' :
  Permutation d d' -> NoDup (dict_keys d) ->
  get_cached_result self function_name (VDict d)
  = get_cached_result self function_name (VDict d').
Proof.
  intros Hperm Hnd. unfold get_cached_result, Json.dumps_sorted.
  now rewrite (sort_keys_permutation d d' Hperm Hnd).
Qed.

Lemma get_cached_result_order_witness :
  let d := [("a", VInt 2); ("b", VInt 3)] in
  let d' := [("b", VInt 3); ("a", VInt 2)] in
  Permutation d d' /\ NoDup (dict_keys d) /\
  forall self function_name,
    get_cached_result self function_name (VDict d)
    = get_cached_result self function_name (VDict d').
Proof.
  cbv zeta.
  assert (H1 : Permutation [("a", VInt 2); ("b", VInt 3)]
                 [("b", VInt 3); ("a", VInt 2)]) by apply perm_swap.
  assert (H2 : NoDup (dict_keys [("a", VInt 2); ("b", VInt 3)])).
  { repeat constructor; simpl; intuition discriminate. }
  split; [exact H1|]. split; [exact H2|].
  intros self function_name.
  exact (get_cached_result_order self function_name _ _ H1 H2).
Defined.

(** ** The state of a tracker *)

(** X15.  After [update(key, v)], [get(key)] gives [v] and [get] of any other
    key gives what it gave before. *)
Theorem get_after_update self key v c self' :
  fst (update self key v c) = Ok self' ->
  forall key' default,
    get self' key' default =
    if String.eqb key' key then Ok v else get self key' default.
Proof.
  unfold update, get.
  destruct (_state self) as [| | | | | |d]; try discriminate.
  destruct (time_time c) as [now c']. cbn [fst]. intros [= <-] key' default.
  cbn [_state]. unfold dict_get_default.
  destruct (String.eqb key' key) eqn:E.
  - apply String.eqb_eq in E. subst key'. now rewrite dict_get_set_eq.
  - apply String.eqb_neq in E. rewrite dict_get_set_neq; auto.
Qed.

Lemma get_after_update_witness :
  exists self',
    fst (update tracker0 "n" (VInt 1) clock0) = Ok self' /\
    forall key' default,
      get self' key' default =
      if String.eqb key' "n" then Ok (VInt 1) else get tracker0 key' default.
Proof.
  eexists. split; [reflexivity|].
  apply (get_after_update tracker0 "n" (VInt 1) clock0). reflexivity.
Defined.

Lemma dict_get_update {V : Type} k (d data : dict V) :
  NoDup (dict_keys data) ->
  dict_get k (dict_update d data) =
  match dict_get k data with Some v => Some v | None => dict_get k d end.
Proof.
  unfold dict_update. revert d.
  induction data as [|[k' v'] data IH]; intros d Hnd; simpl; auto.
  inversion Hnd as [|? ? Hnotin Hnd']; subst.
  rewrite IH by assumption.
  destruct (String.eqb k k') eqn:E.
  - apply String.eqb_eq in E. subst k'.
    apply dict_get_None_notin in Hnotin. rewrite Hnotin.
    apply dict_get_set_eq.
  - apply String.eqb_neq in E.
    destruct (dict_get k data); auto.
    apply dict_get_set_neq. congruence.
Qed.

(** X16.  After [merge(data)], [get(key)] gives the value [data] has for
    [key] when it has one, and what it gave before otherwise; the
    history is untouched. *)
Theorem get_after_merge self data c self' :
  NoDup (dict_keys data) ->
  fst (merge self data c) = Ok self' ->
  (forall key default,
      get self' key default =
      match dict_get key data with
      | Some v => Ok v
      | None => get self key default
      end) /\
  _history self' = _history self.
Proof.
  intros Hnd. unfold merge, get.
  destruct (_state self) as [| | | | | |d]; try discriminate.
  destruct (time_time c) as [now c']. cbn [fst]. intros [= <-].
  split; [|reflexivity]. intros key default. cbn [_state].
  unfold dict_get_default. rewrite dict_get_update by assumption.
  now destruct (dict_get key data).
Qed.

Lemma get_after_merge_witness :
  let data := [("user", VStr "bob"); ("n", VInt 1)] in
  NoDup (dict_keys data) /\
  exists self',
    fst (merge tracker0 data clock0) = Ok self' /\
    (forall key default,
        get self' key default =
        match dict_get key data with
        | Some v => Ok v
        | None => get tracker0 key default
        end) /\
    _history self' = _history tracker0.
Proof.
  cbv zeta.
  assert (H : NoDup (dict_keys [("user", VStr "bob"); ("n", VInt 1)])).
  { repeat constructor; simpl; intuition discriminate. }
  split; [exact H|]. eexists. split; [reflexivity|].
  apply (get_after_merge tracker0 _ clock0 _ H). reflexivity.
Defined.

(** ** The history of a tracker *)

Lemma entries_of_type_app t l1 l2 k1 k2 :
  entries_of_type t l1 = Ok k1 ->
  entries_of_type t l2 = Ok k2 ->
  entries_of_type t (l1 ++ l2) = Ok (k1 ++ k2)%list.
Proof.
  revert k1. induction l1 as [|e l1 IH]; intros k1; simpl.
  - intros [= <-] H. exact H.
  - destruct (entry_has_type t e) as [keep|]; simpl; [|discriminate].
    destruct (entries_of_type t l1) as [rest|]; simpl; [|discriminate].
    intros [= <-] H2. rewrite (IH rest eq_refl H2). simpl.
    now destruct keep.
Qed.

(** The entry [add_to_history] appends when the clock reads [now]. *)
Definition history_entry (entry_type : string) (now : time) (data : value)
  : value :=
  VDict [("type", VStr entry_type); ("timestamp", seconds now);
         ("data", data)].

(** X17.  After [add_to_history(entry_type, data)] the whole history is the
    former one with the new entry at its end, and [get_history(t)] is
    what it was, with the new entry at its end when [t] is
    [entry_type]. *)
Theorem get_history_after_add self entry_type data c self' :
  fst (add_to_history self entry_type data c) = Ok self' ->
  let entry := history_entry entry_type (readings c (reads c)) data in
  (exists h,
      get_history self None = Ok (VList h) /\
      get_history self' None = Ok (VList (h ++ [entry]))) /\
  (forall t kept,
      get_history self (Some t) = Ok (VList kept) ->
      get_history self' (Some t) =
      Ok (VList (if String.eqb entry_type t then kept ++ [entry]
                 else kept))).
Proof.
  unfold add_to_history, get_history.
  destruct (_history self) as [| | | | |h|] eqn:Hh; try discriminate.
  unfold time_time. cbn [fst]. intros [= <-]. cbv zeta. cbn [_history].
  split; [exists h; split; reflexivity|].
  intros t kept. cbn [iterate bind].
  destruct (entries_of_type t h) as [k|] eqn:Hk; simpl; [|discriminate].
  intros [= ->].
  fold (history_entry entry_type (readings c (reads c)) data).
  set (entry := history_entry entry_type (readings c (reads c)) data).
  assert (Hnew : entries_of_type t [entry]
                 = Ok (if String.eqb entry_type t then [entry] else [])).
  { unfold entry, history_entry. simpl.
    now destruct (String.eqb entry_type t). }
  rewrite (entries_of_type_app _ _ _ _ _ Hk Hnew). simpl.
  destruct (String.eqb entry_type t); [reflexivity|].
  now rewrite app_nil_r.
Qed.

Lemma get_history_after_add_witness :
  exists self',
    fst (add_to_history tracker0 "call" VNone clock0) = Ok self' /\
    let entry := history_entry "call" (readings clock0 (reads clock0)) VNone in
    (exists h,
        get_history tracker0 None = Ok (VList h) /\
        get_history self' None = Ok (VList (h ++ [entry]))) /\
    (forall t kept,
        get_history tracker0 (Some t) = Ok (VList kept) ->
        get_history self' (Some t) =
        Ok (VList (if String.eqb "call" t then kept ++ [entry] else kept))).
Proof.
  eexists. split; [reflexivity|].
  apply (get_history_after_add tracker0 "call" VNone clock0). reflexivity.
Defined.

(** ** The expiry of a tracker *)

(** The methods that set [last_updated]. *)
Definition sets_last_updated (op : tracker_op) : bool :=
  match op with
  | T_update _ _ | T_merge _ | T_clear => true
  | _ => false
  end.

Lemma is_expired_seconds self t c :
  last_updated self = seconds t ->
  fst (is_expired self c)
  = Ok (ttl self * 1000000 <? readings c (reads c) - t).
Proof.
  unfold is_expired, time_time, seconds. cbn [fst]. intros ->.
  unfold elapsed_over. cbn [f_frac_pred f_mant]. f_equal.
  change (10 ^ Z.of_nat 6) with 1000000.
  destruct (Z.ltb_spec (ttl self * 1000000 * 1000000)
              (readings c (reads c) * 1000000 - t * 1000000));
    destruct (Z.ltb_spec (ttl self * 1000000) (readings c (reads c) - t));
    auto; lia.
Qed.

(** X18.  After [update], [merge] or [clear] made at the time [t],
    [is_expired] tells whether the clock reads more than [ttl] seconds
    past [t]; the other methods, [add_to_history] among them, leave the
    answer of [is_expired] as it was. *)
Theorem expiry self op c self' c2 :
  fst (tracker_call self op c) = Ok self' ->
  fst (is_expired self' c2) =
  if sets_last_updated op
  then Ok (ttl self * 1000000
           <? readings c2 (reads c2) - readings c (reads c))
  else fst (is_expired self c2).
Proof.
  destruct op; cbn [tracker_call sets_last_updated].
  - unfold update. destruct (_state self); try discriminate.
    unfold time_time. cbn [fst]. intros [= <-].
    now rewrite (is_expired_seconds _ (readings c (reads c))).
  - cbn [fst]. destruct (get self key default); [|discriminate].
    now intros [= <-].
  - unfold merge. destruct (_state self); try discriminate.
    unfold time_time. cbn [fst]. intros [= <-].
    now rewrite (is_expired_seconds _ (readings c (reads c))).
  - unfold clear, time_time. cbn [fst]. intros [= <-].
    now rewrite (is_expired_seconds _ (readings c (reads c))).
  - unfold add_to_history. destruct (_history self); try discriminate.
    unfold time_time. cbn [fst]. now intros [= <-].
  - cbn [fst]. destruct (get_history self entry_type); [|discriminate].
    now intros [= <-].
  - unfold is_expired, time_time. cbn [fst].
    destruct (elapsed_over _ _ _); [|discriminate]. now intros [= <-].
Qed.

Lemma expiry_witness :
  exists self',
    fst (tracker_call tracker0 T_clear clock0) = Ok self' /\
    fst (is_expired self' clock0) =
    if sets_last_updated T_clear
    then Ok (ttl tracker0 * 1000000
             <? readings clock0 (reads clock0)
                - readings clock0 (reads clock0))
    else fst (is_expired tracker0 clock0).
Proof.
  eexists. split; [reflexivity|].
  apply (expiry tracker0 T_clear clock0). reflexivity.
Defined.

(** ** A tracker never raises *)

(** What the constructor and the methods keep true of a tracker: the
    state is a dictionary, the history is a list of dictionaries with a
    type, and the time of the last update is a time of the clock. *)
Definition typed_entry (entry : value) : Prop :=
  exists d t, entry = VDict d /\ dict_get "type" d = Some t.

Definition tracker_ok (self : StateTracker) : Prop :=
  (exists d, _state self = VDict d) /\
  (exists h, _history self = VList h /\ Forall typed_entry h) /\
  (exists t, last_updated self = seconds t).

Lemma new_state_tracker_ok sid ttl c :
  tracker_ok (fst (new_state_tracker sid ttl c)).
Proof.
  unfold new_state_tracker, tracker_ok.
  destruct (truthy sid); unfold time_time; cbn; repeat split; eauto.
Qed.

Lemma entries_of_type_ok t h :
  Forall typed_entry h -> exists kept, entries_of_type t h = Ok kept.
Proof.
  induction 1 as [|e h (d & ty & -> & Hty) _ [kept IH]]; simpl; eauto.
  unfold entry_has_type, subscript. rewrite Hty. simpl. rewrite IH. simpl.
  eauto.
Qed.

Lemma tracker_call_ok self op c :
  tracker_ok self ->
  exists self', fst (tracker_call self op c) = Ok self' /\ tracker_ok self'.
Proof.
  intros Hok. assert (Hok' := Hok).
  destruct Hok' as ((d & Hd) & (h & Hh & Hall) & (t & Ht)).
  destruct op; cbn [tracker_call].
  - unfold update, time_time. rewrite Hd. cbn [fst].
    eexists. split; [reflexivity|].
    unfold tracker_ok. cbn. repeat split; eauto.
  - unfold get. rewrite Hd. cbn. eauto.
  - unfold merge, time_time. rewrite Hd. cbn [fst].
    eexists. split; [reflexivity|].
    unfold tracker_ok. cbn. repeat split; eauto.
  - unfold clear, time_time. cbn [fst].
    eexists. split; [reflexivity|].
    unfold tracker_ok. cbn. repeat split; eauto.
  - unfold add_to_history, time_time. rewrite Hh. cbn [fst].
    eexists. split; [reflexivity|].
    unfold tracker_ok. cbn [_state _history last_updated].
    split; [eauto|]. split; [|eauto].
    eexists. split; [reflexivity|].
    apply Forall_app. split; auto.
    constructor; [|constructor]. eexists. eexists. split; reflexivity.
  - unfold get_history. destruct entry_type as [ty|]; cbn [fst bind]; eauto.
    rewrite Hh. cbn [iterate bind].
    destruct (entries_of_type_ok ty h Hall) as [kept ->]. cbn. eauto.
  - unfold is_expired, time_time. rewrite Ht. cbn. eauto.
Qed.

(** X19.  A tracker made by the constructor and used through its methods
    only never raises: every sequence of calls of [update], [get],
    [merge], [clear], [add_to_history], [get_history] and [is_expired]
    runs to its end. *)
Theorem tracker_never_raises sid ttl c ops :
  exists self',
    fst (tracker_run ops (fst (new_state_tracker sid ttl c))
           (snd (new_state_tracker sid ttl c)))
    = Ok self'.
Proof.
  pose proof (new_state_tracker_ok sid ttl c) as Hok.
  generalize dependent (fst (new_state_tracker sid ttl c)).
  generalize (snd (new_state_tracker sid ttl c)).
  induction ops as [|op ops IH]; intros c1 self Hok; simpl; eauto.
  destruct (tracker_call_ok self op c1 Hok) as (self' & Hcall & Hok').
  destruct (tracker_call self op c1) as [[s|e] c2]; cbn [fst] in Hcall;
    [|discriminate].
  injection Hcall as ->. now apply IH.
Qed.

(** ** What [from_json] accepts *)

(** The keys [from_json] reads, in the order in which it reads them. *)
Definition tracker_keys : list string :=
  ["session_id"; "created_at"; "last_updated"; "state"; "history"].

(** X20.  [from_json] on the text of a JSON object succeeds exactly when the
    object has the five keys it reads, whatever their values are.  The
    tracker it gives holds the values of the object as they are, its
    [ttl] is 3600, and its identifier is that of the object unless that
    one is false as a condition. *)
Theorem from_json_object d c :
  json_representable (VDict d) ->
  let out := fst (from_json (Json.dumps (VDict d)) c) in
  ((exists self', out = Ok self') <->
   Forall (fun k => In k (dict_keys d)) tracker_keys) /\
  (forall self',
      out = Ok self' ->
      ttl self' = 3600 /\
      dict_get "created_at" d = Some (created_at self') /\
      dict_get "last_updated" d = Some (last_updated self') /\
      dict_get "state" d = Some (_state self') /\
      dict_get "history" d = Some (_history self') /\
      (forall sid,
          dict_get "session_id" d = Some sid -> truthy sid = true ->
          session_id self' = sid)).
Proof.
  intros Hrep. cbv zeta. unfold from_json.
  rewrite (loads_dumps _ Hrep). unfold subscript, tracker_keys.
  rewrite !Forall_cons_iff, <- !dict_mem_in. unfold dict_mem.
  destruct (dict_get "session_id" d) as [sid|];
    [|cbn; split; [split; [intros [? ?]; discriminate | intuition discriminate]
                  | discriminate]].
  unfold new_state_tracker.
  destruct (truthy sid) eqn:Hsid;
    unfold time_time; cbn [fst snd session_id ttl];
    destruct (dict_get "created_at" d) as [ca|];
    try (cbn; split; [split; [intros [? ?]; discriminate
                             | intuition discriminate] | discriminate]);
    destruct (dict_get "last_updated" d) as [lu|];
    try (cbn; split; [split; [intros [? ?]; discriminate
                             | intuition discriminate] | discriminate]);
    destruct (dict_get "state" d) as [st|];
    try (cbn; split; [split; [intros [? ?]; discriminate
                             | intuition discriminate] | discriminate]);
    destruct (dict_get "history" d) as [h|];
    try (cbn; split; [split; [intros [? ?]; discriminate
                             | intuition discriminate] | discriminate]);
    cbn; (split; [split; [intros _; repeat split; auto using Forall_nil
                         | eauto]|]);
    intros self' [= <-]; cbn; repeat split; auto;
    intros sid' [= <-]; congruence.
Qed.

Lemma from_json_object_witness :
  let d := [("session_id", VStr "s"); ("created_at", VNone);
            ("last_updated", VStr "never"); ("state", VList []);
            ("history", VInt 3); ("more", VBool true)] in
  json_representable (VDict d) /\
  let out := fst (from_json (Json.dumps (VDict d)) clock0) in
  ((exists self', out = Ok self') <->
   Forall (fun k => In k (dict_keys d)) tracker_keys) /\
  (forall self',
      out = Ok self' ->
      ttl self' = 3600 /\
      dict_get "created_at" d = Some (created_at self') /\
      dict_get "last_updated" d = Some (last_updated self') /\
      dict_get "state" d = Some (_state self') /\
      dict_get "history" d = Some (_history self') /\
      (forall sid,
          dict_get "session_id" d = Some sid -> truthy sid = true ->
          session_id self' = sid)).
Proof.
  cbv zeta.
  assert (H : json_representable
                (VDict [("session_id", VStr "s"); ("created_at", VNone);
                        ("last_updated", VStr "never"); ("state", VList []);
                        ("history", VInt 3); ("more", VBool true)])).
  { split; [|simpl; tauto].
    repeat constructor; simpl; intuition discriminate. }
  split; [exact H|].
  exact (from_json_object _ clock0 H).
Defined.

(** ** The text of a restored tracker *)

(** X21.  For a tracker whose identifier is not false as a condition, the
    tracker [from_json] makes of the text of [to_json] has the same
    identifier and gives the same text again. *)
Theorem to_json_stable self c self' :
  tracker_representable self ->
  truthy (session_id self) = true ->
  fst (from_json (to_json self) c) = Ok self' ->
  session_id self' = session_id self /\ to_json self' = to_json self.
Proof.
  intros Hrep Hsid. unfold from_json. unfold to_json at 1.
  rewrite (loads_dumps _ (document_representable _ Hrep)).
  change (subscript (document self) "session_id") with (Ok (session_id self)).
  cbv iota beta. unfold new_state_tracker. rewrite Hsid.
  unfold time_time.
  change (subscript (document self) "created_at")
    with (Ok (created_at self)).
  change (subscript (document self) "last_updated")
    with (Ok (last_updated self)).
  change (subscript (document self) "state") with (Ok (_state self)).
  change (subscript (document self) "history") with (Ok (_history self)).
  cbn [bind fst session_id ttl]. intros [= <-]. split; reflexivity.
Qed.

Lemma to_json_stable_witness :
  exists self',
    tracker_representable tracker0 /\
    truthy (session_id tracker0) = true /\
    fst (from_json (to_json tracker0) clock0) = Ok self' /\
    session_id self' = session_id tracker0 /\
    to_json self' = to_json tracker0.
Proof.
  assert (H : tracker_representable tracker0).
  { unfold tracker_representable. simpl.
    repeat split; repeat constructor; simpl; intuition discriminate. }
  eexists. split; [exact H|]. split; [reflexivity|].
  assert (E : fst (from_json (to_json tracker0) clock0) = Ok _)
    by (vm_compute; reflexivity).
  split; [exact E|].
  exact (to_json_stable tracker0 clock0 _ H eq_refl E).
Defined.

(** ** The answers of the adapter *)





Lemma process_response_keys caller response context c answer :
  fst (fst (_process_response caller response context c)) = Ok answer ->
  dict_mem "content" answer = true /\
  dict_mem "function_call" answer = true.
Proof.
  unfold _process_response.
  destruct (choices response) as [|message others]; [discriminate|].
  destruct (tool_calls message) as [[|tool_call more]|];
    try (cbn; intros [= <-]; auto).
  destruct (execute_function_call caller _ (Some context) c)
    as [[[result|e] caller'] c'].
  - destruct (truthy _); cbn; intros [= <-]; auto.
  - destruct (is_Exception e); cbn; [intros [= <-]; auto | discriminate].
Qed.

(** What the body gives is never an [Exception], and it makes one
    request to the API. *)
Lemma chat_completion_body_outcome self messages context st c :
  let out := chat_completion_body self messages context st c in
  requests (snd (fst out)) = S (requests st) /\
  match fst (fst out) with
  | Ok answer =>
      dict_mem "content" answer = true /\
      dict_mem "function_call" answer = true
  | Raise e => is_Exception e = false
  end.
Proof.
  cbv zeta. unfold chat_completion_body.
  destruct (prepare_for_llm _ _ _ _ c) as [[function_descriptions cache'] c1].
  destruct (client self _ _ _ _) as [response|e].
  - destruct (_process_response _ response _ c1) as [[answer caller'] c2]
      eqn:Hp.
    destruct answer as [a|e]; cbn [fst snd requests].
    + split; [reflexivity|].
      apply (process_response_keys (smart_caller st) response
               (context_or_empty context) c1).
      now rewrite Hp.
    + destruct (is_Exception e) eqn:He; cbn [fst snd requests]; auto.
  - destruct (is_Exception e) eqn:He; cbn [fst snd requests]; auto.
Qed.

(** X23.  [chat_completion_with_functions] makes exactly one request to the
    API: its body turns every [Exception] into an answer, so the
    decorator never calls it again, whatever the API does.  It returns an
    answer with a content and a function call, unless an exception that
    is not an [Exception] goes through it. *)
Theorem chat_completion_never_retries self messages context st c :
  let out := chat_completion_with_functions self messages context st c in
  out = chat_completion_body self messages context st c /\
  requests (snd (fst out)) = S (requests st) /\
  match fst (fst out) with
  | Ok answer =>
      dict_mem "content" answer = true /\
      dict_mem "function_call" answer = true
  | Raise e => is_Exception e = false
  end.
Proof.
  cbv zeta.
  assert (H : chat_completion_with_functions self messages context st c
              = chat_completion_body self messages context st c).
  { unfold chat_completion_with_functions. cbn [retrying].
    pose proof (chat_completion_body_outcome self messages context st c)
      as [_ Hout].
    destruct (chat_completion_body self messages context st c)
      as [[[answer|e] st'] c']; [reflexivity|].
    cbn [fst] in Hout. now rewrite Hout. }
  rewrite H. split; [reflexivity|].
  apply chat_completion_body_outcome.
Qed.
